(** * mtsutil: worker-pool bootstrap and utility plugin loader

    A shallow embedding of [src/mitsuba/mtsutil.cpp]: the host
    specification parser and the scheduler set-up of [ubi_main], the
    constructor of [UtilityPlugin], and the exit status of the program.

    C++ exceptions are modelled by a sum type threaded through a small
    state-and-error monad; the collaborators that live outside the file
    (streams, scheduler, dynamic loader, file system) are an interface
    whose answers are chosen by the environment. *)

From Stdlib Require Import ZArith List Bool Ascii String Lia.
From Stdlib Require Import Numbers.DecimalString Numbers.DecimalNat Numbers.DecimalZ.
From Stdlib Require Import Lists.Finite.
Import ListNotations.

Local Open Scope string_scope.
Local Open Scope list_scope.

(** ** Strings *)

Module Str.

(** [std::string::find(c) != npos] for a one-character needle. *)
Fixpoint contains (c : ascii) (s : string) : bool :=
  match s with
  | EmptyString => false
  | String d s' => if Ascii.eqb d c then true else contains c s'
  end.

(** [s.c_str()] seen as a C string: the characters before the first NUL. *)
Fixpoint c_str (s : string) : string :=
  match s with
  | EmptyString => EmptyString
  | String d s' => if Ascii.eqb d zero then EmptyString else String d (c_str s')
  end.

Definition is_empty (s : string) : bool :=
  match s with EmptyString => true | _ => false end.

(** A finished token is kept only when it has at least one character. *)
Definition push_token (tok : string) (toks : list string) : list string :=
  if is_empty tok then toks else tok :: toks.

(** Scan from the right: the pair is the token still open at the left
    end of [s] and the tokens already closed behind it. *)
Fixpoint scan (delim : string) (s : string) : string * list string :=
  match s with
  | EmptyString => (EmptyString, [])
  | String c s' =>
      let (tok, toks) := scan delim s' in
      if contains c delim then (EmptyString, push_token tok toks)
      else (String c tok, toks)
  end.

(** Modelled from the spec: [tokenize] is declared in the core headers
    and its body is not part of this file.  The spec has it split a
    text on any of the delimiter characters; an empty text gives an
    empty sequence and a descriptor can have zero tokens, so runs of
    delimiters and delimiters at either end produce no token. *)
Definition tokenize (s delim : string) : list string :=
  let (tok, toks) := scan delim s in push_token tok toks.

(** *** [strtol(s, &end_ptr, 10)] *)

Definition isspace (c : ascii) : bool :=
  let n := nat_of_ascii c in
  Nat.eqb n 32 || (Nat.leb 9 n && Nat.leb n 13).

Definition isdigit (c : ascii) : bool :=
  let n := nat_of_ascii c in
  Nat.leb 48 n && Nat.leb n 57.

Definition digit_value (c : ascii) : Z := Z.of_nat (nat_of_ascii c) - 48.

Fixpoint skip_space (s : string) : string :=
  match s with
  | String c s' => if isspace c then skip_space s' else s
  | EmptyString => s
  end.

(** Consume the longest run of decimal digits, accumulating its value. *)
Fixpoint digits (s : string) (acc : Z) : Z * string :=
  match s with
  | String c s' =>
      if isdigit c then digits s' (10 * acc + digit_value c)%Z else (acc, s)
  | EmptyString => (acc, s)
  end.

(** [long] is 64 bits wide and [int] 32 bits (LP64). *)
Definition LONG_MAX : Z := 2 ^ 63 - 1.
Definition LONG_MIN : Z := - 2 ^ 63.

Definition clamp_long (z : Z) : Z := Z.max LONG_MIN (Z.min LONG_MAX z).

(** The conversion [long -> int] done by the assignment
    [port = strtol(...)]: reduction modulo [2^32] into the signed range. *)
Definition int_of_long (z : Z) : Z := ((z + 2 ^ 31) mod 2 ^ 32 - 2 ^ 31)%Z.

Definition starts_with_digit (s : string) : bool :=
  match s with
  | String c _ => isdigit c
  | EmptyString => false
  end.

(** The result is the converted value and the text [end_ptr] points at.
    When no digit is found nothing is consumed: [end_ptr] is the start
    of the input. *)
Definition strtol (s : string) : Z * string :=
  let s1 := skip_space s in
  let (neg, s2) :=
    match s1 with
    | String "-"%char r => (true, r)
    | String "+"%char r => (false, r)
    | _ => (false, s1)
    end in
  if starts_with_digit s2 then
    let (v, rest) := digits s2 0%Z in
    (clamp_long (if neg then (- v)%Z else v), rest)
  else (0%Z, s).

(** [formatString("%i", i)] for a machine integer. *)
Definition format_int (z : Z) : string :=
  NilEmpty.string_of_int (Z.to_int z).

(** The characters [std::isspace] accepts in the classic locale. *)
Definition whitespace : string :=
  String (ascii_of_nat 32) (String (ascii_of_nat 9) (String (ascii_of_nat 10)
    (String (ascii_of_nat 11) (String (ascii_of_nat 12) (String (ascii_of_nat 13) ""))))).

(** The values successive [is >> host] extractions produce: the maximal
    runs of characters that are not white space. *)
Definition words (content : string) : list string :=
  let (tok, toks) := scan whitespace content in push_token tok toks.

(** [networkHosts + std::string(";") + host] *)
Definition add_host (networkHosts host : string) : string :=
  networkHosts ++ ";" ++ host.

End Str.

(** ** Exceptions, streams, workers and the observable state *)

(** The exceptions the program distinguishes.  [LogError] is the
    [std::runtime_error] of a [SLog(EError, fmt, ...)] call, the format
    string and its arguments kept apart so that two failures can be
    compared by the call that raised them; [RuntimeError] is any other
    [std::runtime_error], [StdException] any other [std::exception]. *)
Inductive exn : Type :=
| LogError (fmt : string) (args : list string)
| RuntimeError (what : string)
| StdException (what : string)
| UnknownException.

(** What [catch (std::runtime_error &e)] accepts. *)
Definition is_runtime_error (e : exn) : bool :=
  match e with
  | LogError _ _ | RuntimeError _ => true
  | StdException _ | UnknownException => false
  end.

(** The format string of the [SLog] call, the kind of a logged failure. *)
Definition error_kind (e : exn) : option string :=
  match e with
  | LogError fmt _ => Some fmt
  | _ => None
  end.

Inductive stream : Type :=
| SocketStream (host : string) (port : Z)
| SSHStream (userName hostName : string) (cmdLine : list string).

Inductive worker : Type :=
| LocalWorker (name : string)
| RemoteWorker (name : string) (s : stream).

Definition is_local (w : worker) : bool :=
  match w with LocalWorker _ => true | RemoteWorker _ _ => false end.

(** The calls of [ubi_main] that leave the function, in program order. *)
Inductive event : Type :=
| EvHelp
| EvNewStream (s : stream)
| EvRegister (w : worker)
| EvWarn (msg : string)
| EvStart
| EvCreateUtility
| EvCerr (msg : string)
| EvCaught (e : exn).

(** The scheduler singleton (registered workers in registration order,
    and whether [start] was called) together with the event trace. *)
Record world : Type := mkWorld {
  workers : list worker;
  running : bool;
  trace : list event
}.

Definition initial_world : world := mkWorld [] false [].

Definition emit (e : event) (w : world) : world :=
  mkWorld (workers w) (running w) (trace w ++ [e]).

(** The worker descriptor that the two branches of the connection loop
    compute before they build a stream. *)
Inductive descriptor : Type :=
| Direct (host : string) (port : Z)
| Tunnel (user host remotePath : string).

(** ** Computations that may throw *)

Definition M (S A : Type) : Type := S -> (exn + A) * S.

Definition ret {S A} (a : A) : M S A := fun s => (inr a, s).

Definition throw {S A} (e : exn) : M S A := fun s => (inl e, s).

Definition bind {S A B} (m : M S A) (k : A -> M S B) : M S B :=
  fun s =>
    match m s with
    | (inr a, s') => k a s'
    | (inl e, s') => (inl e, s')
    end.

Notation "x <- m ;; k" := (bind m (fun x => k))
  (at level 61, m at next level, right associativity).
Notation "m ;;; k" := (bind m (fun _ => k))
  (at level 61, right associativity).

(** [try { m } catch (std::runtime_error &e) { h e }]: other exceptions
    pass through the handler untouched. *)
Definition try_catch_runtime_error {S A} (m : M S A) (h : exn -> M S A) : M S A :=
  fun s =>
    match m s with
    | (inl e, s') => if is_runtime_error e then h e s' else (inl e, s')
    | r => r
    end.

(** [try { m } catch (...) { h; throw; }] *)
Definition try_catch_all_rethrow {S A} (m : M S A) (h : M S unit) : M S A :=
  fun s =>
    match m s with
    | (inl e, s') =>
        match h s' with
        | (inr _, s'') => (inl e, s'')
        | (inl e', s'') => (inl e', s'')
        end
    | r => r
    end.

(** Modelled from the spec: the [SLog] macro comes from the core
    headers.  The spec has every [SLog(EError, ...)] call fail the
    operation under way, and the code relies on it (it reads [tokens[0]]
    right after the call that rejects an empty token list): the call
    does not return, it throws. *)
Definition SLog_EError {S A} (fmt : string) (args : list string) : M S A :=
  throw (LogError fmt args).

(** ** The environment of [ubi_main] *)

(** Everything [ubi_main] calls but does not define.  A [Some e] answer
    is the exception thrown by the call in the given state. *)
Class Env : Type := {
  MTS_DEFAULT_PORT : Z;
  getProcessorCount : Z;
  getHostName : string;
  (** [std::ifstream is(name)]: the content, or [None] when [is.fail()]. *)
  ifstream : string -> option string;
  (** the constructors [new SocketStream(..)] and [new SSHStream(..)] *)
  stream_throws : world -> stream -> option exn;
  (** [scheduler->registerWorker(new ...Worker(..))] *)
  register_throws : world -> worker -> option exn;
  (** the creation of the utility object after the scheduler started *)
  utility_throws : world -> option exn
}.

(** ** [ubi_main] *)

Section Bootstrap.

Context {E : Env}.

(** *** Host specifications (lines 209-231) *)

Definition invalid_host_fmt : string := "Invalid host specification '%s'!".

Definition invalid_host (hostName : string) : exn :=
  LogError invalid_host_fmt [Str.c_str hostName].

(** The argument checks of the two branches.  [nth 0] and [nth 1] read
    [tokens[0]] and [tokens[1]], which exist wherever they are used. *)
Definition parse_host (hostName : string) : exn + descriptor :=
  if negb (Str.contains "@" hostName) then
    let port := MTS_DEFAULT_PORT in
    let tokens := Str.tokenize hostName ":" in
    if Nat.eqb (List.length tokens) 0 || Nat.ltb 2 (List.length tokens) then
      inl (invalid_host hostName)
    else if Nat.eqb (List.length tokens) 2 then
      let (value, end_ptr) := Str.strtol (Str.c_str (nth 1 tokens "")) in
      if negb (Str.is_empty end_ptr) then inl (invalid_host hostName)
      else inr (Direct (nth 0 tokens "") (Str.int_of_long value))
    else inr (Direct (nth 0 tokens "") port)
  else
    let path := "~/mitsuba" in
    let tokens := Str.tokenize hostName "@:" in
    if Nat.ltb (List.length tokens) 2 || Nat.ltb 3 (List.length tokens) then
      inl (invalid_host hostName)
    else if Nat.eqb (List.length tokens) 3 then
      inr (Tunnel (nth 0 tokens "") (nth 1 tokens "") (nth 2 tokens ""))
    else inr (Tunnel (nth 0 tokens "") (nth 1 tokens "") path).

(** [formatString("bash -c 'cd %s; . setpath.sh; mtssrv -ls'", path.c_str())] *)
Definition ssh_command (path : string) : string :=
  "bash -c 'cd " ++ Str.c_str path ++ "; . setpath.sh; mtssrv -ls'".

(** The stream each branch constructs from its descriptor. *)
Definition stream_of (d : descriptor) : stream :=
  match d with
  | Direct host port => SocketStream host port
  | Tunnel user host path => SSHStream user host [ssh_command path]
  end.

Definition is_tunnel (d : descriptor) : bool :=
  match d with Tunnel _ _ _ => true | Direct _ _ => false end.

(** *** Calls into the collaborators *)

Definition new_stream (s : stream) : M world stream :=
  fun w =>
    match stream_throws w s with
    | Some e => (inl e, emit (EvNewStream s) w)
    | None => (inr s, emit (EvNewStream s) w)
    end.

Definition registerWorker (wk : worker) : M world unit :=
  fun w =>
    match register_throws w wk with
    | Some e => (inl e, emit (EvRegister wk) w)
    | None =>
        (inr tt, mkWorld (workers w ++ [wk]) (running w) (trace w ++ [EvRegister wk]))
    end.

Definition SLog_EWarn (msg : string) : M world unit :=
  fun w => (inr tt, emit (EvWarn msg) w).

Definition scheduler_start : M world unit :=
  fun w => (inr tt, mkWorld (workers w) true (trace w ++ [EvStart])).

Definition help : M world unit :=
  fun w => (inr tt, emit EvHelp w).

Definition cerr (msg : string) : M world unit :=
  fun w => (inr tt, emit (EvCerr msg) w).

Definition create_utility : M world unit :=
  fun w =>
    match utility_throws w with
    | Some e => (inl e, emit EvCreateUtility w)
    | None => (inr tt, emit EvCreateUtility w)
    end.

(** *** The worker pool (lines 199-248) *)

Definition local_name (i : nat) : string := "wrk" ++ Str.format_int (Z.of_nat i).
Definition remote_name (i : nat) : string := "net" ++ Str.format_int (Z.of_nat i).

Definition passwordless_hint : string :=
  "Please ensure that passwordless authentication is enabled (e.g. using ssh-agent - see the documentation for more information)".

(** [for (int i = ...; i < nprocs; ++i)], with [count] iterations left. *)
Fixpoint register_locals (count : nat) (i : nat) : M world unit :=
  match count with
  | O => ret tt
  | S count' =>
      registerWorker (LocalWorker (local_name i)) ;;;
      register_locals count' (S i)
  end.

(** The body of the connection loop for [hosts[i]]. *)
Definition connect_host (i : nat) (hostName : string) : M world unit :=
  stream <- match parse_host hostName with
            | inl e => throw e
            | inr d => new_stream (stream_of d)
            end ;;
  try_catch_runtime_error
    (registerWorker (RemoteWorker (remote_name i) stream))
    (fun e =>
       (if Str.contains "@" hostName then SLog_EWarn passwordless_hint else ret tt) ;;;
       throw e).

Fixpoint connect_hosts (i : nat) (hosts : list string) : M world unit :=
  match hosts with
  | [] => ret tt
  | hostName :: rest => connect_host i hostName ;;; connect_hosts (S i) rest
  end.

(** Lines 199-246: every registration, before the scheduler starts. *)
Definition register_all (nprocs : Z) (hosts : list string) : M world unit :=
  register_locals (Z.to_nat nprocs) 0 ;;;
  connect_hosts 0 hosts.

(** Lines 199-248. *)
Definition assemble (nprocs : Z) (hosts : list string) : M world unit :=
  register_all nprocs hosts ;;;
  scheduler_start.

End Bootstrap.

(** *** Command line (lines 122-179) *)

Record settings : Type := mkSettings {
  nprocs : Z;
  nodeName : string;
  networkHosts : string;
  quietMode : bool;
  verbose : bool
}.

Inductive option_case : Type :=
| case_a | case_c | case_s | case_n | case_v | case_p | case_q | case_h_or_default.

(** The [switch (optchar)] of the option loop. *)
Definition classify (optchar : ascii) : option_case :=
  if Ascii.eqb optchar "a" then case_a
  else if Ascii.eqb optchar "c" then case_c
  else if Ascii.eqb optchar "s" then case_s
  else if Ascii.eqb optchar "n" then case_n
  else if Ascii.eqb optchar "v" then case_v
  else if Ascii.eqb optchar "p" then case_p
  else if Ascii.eqb optchar "q" then case_q
  else case_h_or_default.

(** [host.length() < 1 || host.c_str()[0] == '#'] *)
Definition skipped_entry (host : string) : bool :=
  Nat.ltb (String.length host) 1 ||
  match host with
  | String c _ => Ascii.eqb c "#"
  | EmptyString => false
  end.

(** The [while (is >> host)] loop of the [-s] case over the extracted words. *)
Fixpoint read_hosts (entries : list string) (networkHosts : string) : string :=
  match entries with
  | [] => networkHosts
  | host :: rest =>
      if skipped_entry host then read_hosts rest networkHosts
      else read_hosts rest (Str.add_host networkHosts host)
  end.

Section Main.

Context {E : Env}.

Definition default_settings : settings :=
  mkSettings getProcessorCount getHostName "" false false.

(** The [getopt] loop.  [opts] is the sequence of option characters and
    [optarg] values that successive [getopt] calls return before [-1];
    the arguments are C strings.  The [-a] case only adds search paths
    to the file resolver, which plays no part here.  The result is
    [None] when the loop leaves [ubi_main] through [help(); return 0;]. *)
Fixpoint getopt_loop (opts : list (ascii * string)) (st : settings)
  : M world (option settings) :=
  match opts with
  | [] => ret (Some st)
  | (optchar, optarg) :: rest =>
      match classify optchar with
      | case_a => getopt_loop rest st
      | case_c =>
          getopt_loop rest
            (mkSettings (nprocs st) (nodeName st)
               (Str.add_host (networkHosts st) optarg) (quietMode st) (verbose st))
      | case_s =>
          match ifstream optarg with
          | None => SLog_EError "Could not open host file!" []
          | Some content =>
              getopt_loop rest
                (mkSettings (nprocs st) (nodeName st)
                   (read_hosts (Str.words content) (networkHosts st))
                   (quietMode st) (verbose st))
          end
      | case_n =>
          getopt_loop rest
            (mkSettings (nprocs st) optarg (networkHosts st) (quietMode st) (verbose st))
      | case_v =>
          getopt_loop rest
            (mkSettings (nprocs st) (nodeName st) (networkHosts st) (quietMode st) true)
      | case_p =>
          let (value, end_ptr) := Str.strtol optarg in
          if negb (Str.is_empty end_ptr) then
            SLog_EError "Could not parse the processor count!" []
          else
            getopt_loop rest
              (mkSettings (Str.int_of_long value) (nodeName st) (networkHosts st)
                 (quietMode st) (verbose st))
      | case_q =>
          getopt_loop rest
            (mkSettings (nprocs st) (nodeName st) (networkHosts st) true (verbose st))
      | case_h_or_default => help ;;; ret None
      end
  end.

(** The [try] block of [ubi_main]; [Some code] is a [return code;]
    inside it, [None] is reaching its end. *)
Definition ubi_main_try (argc : Z) (opts : list (ascii * string)) (optind : Z)
  : M world (option Z) :=
  if (argc <? 2)%Z then help ;;; ret (Some 0%Z)
  else
    r <- getopt_loop opts default_settings ;;
    match r with
    | None => ret (Some 0%Z)
    | Some st =>
        assemble (nprocs st) (Str.tokenize (networkHosts st) ";") ;;;
        if (argc <=? optind)%Z then
          cerr "A utility name must be supplied!" ;;; ret (Some (-1)%Z)
        else
          create_utility ;;; ret None
    end.

(** [ubi_main]: the value returned and the final state.  Both [catch]
    clauses print and fall through to the [return 0;] that ends the
    function. *)
Definition ubi_main (argc : Z) (opts : list (ascii * string)) (optind : Z)
  : Z * world :=
  match ubi_main_try argc opts optind initial_world with
  | (inr (Some code), w) => (code, w)
  | (inr None, w) => (0%Z, w)
  | (inl e, w) => (0%Z, emit (EvCaught e) w)
  end.

End Main.

(** Outcome of the process: [main] returns, or an exception leaves it. *)
Inductive outcome : Type :=
| Exit (status : Z)
| Uncaught (e : exn).

(** [main]: the value [ubi_main] returns becomes the return value of
    [main].  [xerces] is the message of the [XMLException] thrown by
    [XMLPlatformUtils::Initialize()], if it throws; the handler reports
    it with [SLog(EError, ...)], which throws out of [main]. *)
Definition main {E : Env} (xerces : option string)
    (argc : Z) (opts : list (ascii * string)) (optind : Z) : outcome :=
  match xerces with
  | Some msg => Uncaught (LogError "Error during Xerces initialization: %s" [msg])
  | None => Exit (fst (ubi_main argc opts optind))
  end.

(** ** [UtilityPlugin] (lines 47-116, the [dlfcn] branch) *)

Module Plugin.

Definition handle : Type := nat.
Definition pointer : Type := nat.

Inductive call : Type :=
| Dlopen (path : string)
| Dlsym (h : handle) (sym : string)
| Dlclose (h : handle)
| StaticInitialization.

(** The handles the process holds on loaded modules, one entry per
    successful [dlopen] not yet matched by a [dlclose], and the calls
    made so far. *)
Record os : Type := mkOs {
  held : list handle;
  calls : list call
}.

(** The platform loader; [None] is the null pointer. *)
Class Loader : Type := {
  dlopen : os -> string -> option handle;
  dlsym : os -> handle -> string -> option pointer;
  dlerror : os -> string
}.

Record UtilityPlugin : Type := mkPlugin {
  m_handle : handle;
  m_getDescription : pointer;
  m_createInstance : pointer
}.

Fixpoint release (h : handle) (hs : list handle) : list handle :=
  match hs with
  | [] => []
  | h' :: hs' => if Nat.eqb h h' then hs' else h' :: release h hs'
  end.

Definition quote : string := String (ascii_of_nat 34) "".

Definition load_error_fmt : string :=
  "Error while loading plugin " ++ quote ++ "%s" ++ quote ++ ": %s".

Definition symbol_error_fmt : string :=
  "Could not resolve symbol " ++ quote ++ "%s" ++ quote ++ " in "
    ++ quote ++ "%s" ++ quote ++ ": %s".

(** The member [m_path] is read by the messages and never assigned. *)
Definition m_path : string := "".

Section Loading.

Context {L : Loader}.

(** Lines 61-65. *)
Definition open_module (path : string) : M os handle :=
  fun s =>
    match dlopen s path with
    | None =>
        (inl (LogError load_error_fmt [m_path; dlerror s]),
         mkOs (held s) (calls s ++ [Dlopen path]))
    | Some h => (inr h, mkOs (h :: held s) (calls s ++ [Dlopen path]))
    end.

(** Lines 84-99. *)
Definition getSymbol (h : handle) (sym : string) : M os pointer :=
  fun s =>
    match dlsym s h sym with
    | None =>
        (inl (LogError symbol_error_fmt [sym; m_path; dlerror s]),
         mkOs (held s) (calls s ++ [Dlsym h sym]))
    | Some p => (inr p, mkOs (held s) (calls s ++ [Dlsym h sym]))
    end.

Definition dlclose (h : handle) : M os unit :=
  fun s => (inr tt, mkOs (release h (held s)) (calls s ++ [Dlclose h])).

Definition Class_staticInitialization : M os unit :=
  fun s => (inr tt, mkOs (held s) (calls s ++ [StaticInitialization])).

(** Lines 53-82: the constructor. *)
Definition UtilityPlugin_new (path : string) : M os UtilityPlugin :=
  h <- open_module path ;;
  syms <- try_catch_all_rethrow
            (d <- getSymbol h "GetDescription" ;;
             c <- getSymbol h "CreateInstance" ;;
             ret (d, c))
            (dlclose h) ;;
  Class_staticInitialization ;;;
  ret (mkPlugin h (fst syms) (snd syms)).

(** Lines 109-115: the destructor. *)
Definition UtilityPlugin_delete (p : UtilityPlugin) : M os unit :=
  dlclose (m_handle p).

End Loading.

End Plugin.

(** ** Vocabulary of the statements *)

(** Every character of [s] passes the test. *)
Fixpoint every (test : ascii -> bool) (s : string) : bool :=
  match s with
  | EmptyString => true
  | String c s' => test c && every test s'
  end.

(** No character of [s] is one of the delimiters. *)
Definition delimiter_free (delim s : string) : bool :=
  every (fun c => negb (Str.contains c delim)) s.

(** A token: at least one character, none of them a delimiter. *)
Definition proper_token (delim t : string) : Prop :=
  Str.is_empty t = false /\ delimiter_free delim t = true.

Definition nonempty (s : string) : bool := negb (Str.is_empty s).

(** The text before the first [d], and the pieces between the later ones. *)
Fixpoint split_at (d : ascii) (s : string) : string * list string :=
  match s with
  | EmptyString => (EmptyString, [])
  | String c s' =>
      let (piece, pieces) := split_at d s' in
      if Ascii.eqb c d then (EmptyString, piece :: pieces) else (String c piece, pieces)
  end.

(** The fragments of a hosts string: what stands between its [;]. *)
Definition fragments (hosts : string) : list string :=
  let (f, fs) := split_at ";" hosts in f :: fs.

(** Fragments written back with [;] between them. *)
Fixpoint join (pieces : list string) : string :=
  match pieces with
  | [] => ""
  | f :: rest =>
      match rest with
      | [] => f
      | _ :: _ => f ++ ";" ++ join rest
      end
  end.


Definition newline : ascii := ascii_of_nat 10.

(** The lines of a text. *)
Definition all_lines (content : string) : list string :=
  let (l, ls) := split_at newline content in l :: ls.

(** Every line of the text is blank or a single entry: the only white
    space is the line break. *)
Definition entry_per_line (content : string) : bool :=
  every (fun c => Ascii.eqb c newline || negb (Str.contains c Str.whitespace)) content.

Definition starts_with_hash (l : string) : bool :=
  match l with
  | String c _ => Ascii.eqb c "#"
  | EmptyString => false
  end.

(** The entries of a host file that reach [networkHosts]. *)
Definition file_entries (content : string) : list string :=
  filter (fun host => negb (skipped_entry host)) (Str.words content).

(** What one option appends to [networkHosts]. *)
Definition option_entries {E : Env} (o : ascii * string) : list string :=
  match classify (fst o) with
  | case_c => [snd o]
  | case_s =>
      match ifstream (snd o) with
      | Some content => file_entries content
      | None => []
      end
  | _ => []
  end.

(** The [-c] arguments and host-file entries in the order the options
    are met on the command line. *)
Definition supplied_entries {E : Env} (opts : list (ascii * string)) : list string :=
  flat_map option_entries opts.

Definition hosts_of (entries : list string) : list string :=
  flat_map (fun e => Str.tokenize e ";") entries.

(** The hosts given with [-c], and the hosts read from [-s] files. *)
Definition command_line_hosts (opts : list (ascii * string)) : list string :=
  hosts_of (flat_map (fun o => match classify (fst o) with
                               | case_c => [snd o]
                               | _ => []
                               end) opts).

Definition file_hosts {E : Env} (opts : list (ascii * string)) : list string :=
  hosts_of (flat_map (fun o => match classify (fst o) with
                               | case_s => option_entries o
                               | _ => []
                               end) opts).

(** The host names the connection loop iterates over. *)
Definition parsed_hosts (st : settings) : list string :=
  Str.tokenize (networkHosts st) ";".

(** The workers the loops build for index [i]. *)
Definition local_worker (i : nat) : worker := LocalWorker (local_name i).

Definition remote_worker (i : nat) (d : descriptor) : worker :=
  RemoteWorker (remote_name i) (stream_of d).

(** The workers a pool holds after [n] local registrations, and after
    the remote registrations of [ds], numbered from [i]. *)
Definition local_workers (n : nat) : list worker :=
  map local_worker (seq 0 n).

Fixpoint remote_workers (i : nat) (ds : list descriptor) : list worker :=
  match ds with
  | [] => []
  | d :: rest => remote_worker i d :: remote_workers (S i) rest
  end.

(** The events of a connection loop in which every host succeeds. *)
Fixpoint remote_events (i : nat) (ds : list descriptor) : list event :=
  match ds with
  | [] => []
  | d :: rest =>
      EvNewStream (stream_of d) :: EvRegister (remote_worker i d)
        :: remote_events (S i) rest
  end.

(** The streams whose construction was attempted, oldest first. *)
Fixpoint opened (t : list event) : list stream :=
  match t with
  | [] => []
  | EvNewStream s :: t' => s :: opened t'
  | _ :: t' => opened t'
  end.

(** Events of the connection loop. *)
Definition remote_event (ev : event) : Prop :=
  match ev with
  | EvNewStream _ | EvRegister (RemoteWorker _ _) | EvWarn _ => True
  | _ => False
  end.

(** The four ways the body of the connection loop can end for
    [hosts[i]], with the state each leaves behind. *)
Inductive host_result {E : Env} (i : nat) (hostName : string) (w : world)
  : exn + unit -> world -> Prop :=
| host_rejected e :
    parse_host hostName = inl e ->
    host_result i hostName w (inl e) w
| host_unreachable d e :
    parse_host hostName = inr d ->
    stream_throws w (stream_of d) = Some e ->
    host_result i hostName w (inl e) (emit (EvNewStream (stream_of d)) w)
| host_not_registered d e :
    parse_host hostName = inr d ->
    stream_throws w (stream_of d) = None ->
    register_throws (emit (EvNewStream (stream_of d)) w) (remote_worker i d) = Some e ->
    host_result i hostName w (inl e)
      (mkWorld (workers w) (running w)
         (trace w ++ [EvNewStream (stream_of d); EvRegister (remote_worker i d)]
            ++ (if is_runtime_error e && is_tunnel d
                then [EvWarn passwordless_hint] else [])))
| host_registered d :
    parse_host hostName = inr d ->
    stream_throws w (stream_of d) = None ->
    register_throws (emit (EvNewStream (stream_of d)) w) (remote_worker i d) = None ->
    host_result i hostName w (inr tt)
      (mkWorld (workers w ++ [remote_worker i d]) (running w)
         (trace w ++ [EvNewStream (stream_of d); EvRegister (remote_worker i d)])).

(** The name a worker was constructed with. *)
Definition worker_name (wk : worker) : string :=
  match wk with
  | LocalWorker name => name
  | RemoteWorker name _ => name
  end.

(** The argument of the last option of the command line that the
    [switch] sends to one of the selected cases. *)
Fixpoint last_optarg (selected : option_case -> bool)
         (opts : list (ascii * string)) : option string :=
  match opts with
  | [] => None
  | (optchar, optarg) :: rest =>
      match last_optarg selected rest with
      | Some later => Some later
      | None => if selected (classify optchar) then Some optarg else None
      end
  end.

Definition is_case_p (k : option_case) : bool :=
  match k with case_p => true | _ => false end.

Definition is_case_n (k : option_case) : bool :=
  match k with case_n => true | _ => false end.

Definition is_case_q (k : option_case) : bool :=
  match k with case_q => true | _ => false end.

Definition is_case_v (k : option_case) : bool :=
  match k with case_v => true | _ => false end.

(** An option that ends the option loop: [-h] or an unknown option, a
    [-s] whose file cannot be opened, a [-p] whose count [strtol] does
    not consume to its end. *)
Definition stops_loop {E : Env} (o : ascii * string) : bool :=
  match classify (fst o) with
  | case_h_or_default => true
  | case_s => match ifstream (snd o) with Some _ => false | None => true end
  | case_p => negb (Str.is_empty (snd (Str.strtol (snd o))))
  | _ => false
  end.

(** How the loop ends at such an option: the help text and [return 0],
    or the error of the option. *)
Definition stop_result (o : ascii * string) (w : world)
  : (exn + option settings) * world :=
  match classify (fst o) with
  | case_s => (inl (LogError "Could not open host file!" []), w)
  | case_p => (inl (LogError "Could not parse the processor count!" []), w)
  | _ => (inr None, emit EvHelp w)
  end.

(** No stream constructor, registration or utility creation throws. *)
Definition never_throws (E : Env) : Prop :=
  (forall w s, stream_throws w s = None)
  /\ (forall w wk, register_throws w wk = None)
  /\ (forall w, utility_throws w = None).

(** ** Concrete environments *)

Module Examples.

Definition no_stream_failure (_ : world) (_ : stream) : option exn := None.
Definition no_register_failure (_ : world) (_ : worker) : option exn := None.
Definition no_utility_failure (_ : world) : option exn := None.

Definition line_break : string := String newline "".

(** A host file of four lines: a comment, a blank line and two hosts. *)
Definition hosts_txt : string :=
  "#farm" ++ line_break ++ line_break ++ "b" ++ line_break ++ "u@n" ++ line_break.

Definition hosts_file (name : string) : option string :=
  if String.eqb name "hosts.txt" then Some hosts_txt else None.

(** Every collaborator succeeds; one host file exists. *)
Definition calm : Env :=
  Build_Env 7554 2 "node" hosts_file
    no_stream_failure no_register_failure no_utility_failure.

Definition refused : exn := RuntimeError "connection refused".

(** Every stream constructor throws. *)
Definition unreachable : Env :=
  Build_Env 7554 2 "node" hosts_file
    (fun _ _ => Some refused) no_register_failure no_utility_failure.

(** Streams open, remote workers cannot be set up. *)
Definition no_handshake : Env :=
  Build_Env 7554 2 "node" hosts_file
    no_stream_failure
    (fun _ wk => if is_local wk then None else Some refused)
    no_utility_failure.

(** The host [h2] is down, every other host answers. *)
Definition second_down : Env :=
  Build_Env 7554 2 "node" hosts_file
    (fun _ s => match s with
                | SocketStream host _ =>
                    if String.eqb host "h2" then Some refused else None
                | SSHStream _ _ _ => None
                end)
    no_register_failure no_utility_failure.

(** A loader that finds the module and [GetDescription] only. *)
Definition half_module : Plugin.Loader :=
  Plugin.Build_Loader
    (fun _ _ => Some 7)
    (fun _ _ sym => if String.eqb sym "GetDescription" then Some 1 else None)
    (fun _ => "undefined symbol").

(** A loader that finds the module and both entry points. *)
Definition full_module : Plugin.Loader :=
  Plugin.Build_Loader
    (fun _ _ => Some 7)
    (fun _ _ sym => if String.eqb sym "GetDescription" then Some 1 else Some 2)
    (fun _ => "").

End Examples.

(** * Properties *)

(** ** The model on concrete inputs *)

Example tokenize_hosts :
  Str.tokenize ";a;;b:1;" ";" = ["a"; "b:1"].
Proof. reflexivity. Qed.

Example tokenize_tunnel :
  Str.tokenize "u@h:~/x" "@:" = ["u"; "h"; "~/x"].
Proof. reflexivity. Qed.

Example strtol_port : Str.strtol "7554" = (7554%Z, "").
Proof. reflexivity. Qed.

Example strtol_junk : Str.strtol "12ab" = (12%Z, "ab").
Proof. reflexivity. Qed.

Example strtol_no_digits : Str.strtol " -x" = (0%Z, " -x").
Proof. reflexivity. Qed.

Example format_int_12 : Str.format_int 12 = "12" /\ Str.format_int 0 = "0".
Proof. split; reflexivity. Qed.

Example assemble_three_locals :
  @assemble Examples.calm 3 [] initial_world =
  (inr tt,
   mkWorld [LocalWorker "wrk0"; LocalWorker "wrk1"; LocalWorker "wrk2"] true
     [EvRegister (LocalWorker "wrk0"); EvRegister (LocalWorker "wrk1");
      EvRegister (LocalWorker "wrk2"); EvStart]).
Proof. reflexivity. Qed.

Example assemble_first_host_unreachable :
  @assemble Examples.unreachable 0 ["h1:1"; "h2:2"] initial_world =
  (inl Examples.refused, mkWorld [] false [EvNewStream (SocketStream "h1" 1)]).
Proof. reflexivity. Qed.

Example plugin_second_symbol_missing :
  @Plugin.UtilityPlugin_new Examples.half_module "x.so" (Plugin.mkOs [] []) =
  (inl (LogError Plugin.symbol_error_fmt ["CreateInstance"; ""; "undefined symbol"]),
   Plugin.mkOs []
     [Plugin.Dlopen "x.so"; Plugin.Dlsym 7 "GetDescription";
      Plugin.Dlsym 7 "CreateInstance"; Plugin.Dlclose 7]).
Proof. reflexivity. Qed.

(** ** Splitting into tokens *)

Section Tokens.

Variable delim : string.

Lemma push_token_app (tok : string) (toks more : list string) :
  Str.push_token tok (toks ++ more) = Str.push_token tok toks ++ more.
Proof. unfold Str.push_token. destruct (Str.is_empty tok); reflexivity. Qed.

Lemma push_token_filter (tok : string) (rest : list string) :
  Str.push_token tok (filter nonempty rest) = filter nonempty (tok :: rest).
Proof.
  unfold Str.push_token, nonempty. simpl. destruct (Str.is_empty tok); reflexivity.
Qed.

(** A delimiter closes the token scanned so far. *)
Lemma scan_app_delim (a b : string) (d : ascii) :
  Str.contains d delim = true ->
  Str.scan delim (a ++ String d b)
  = (fst (Str.scan delim a), snd (Str.scan delim a) ++ Str.tokenize b delim).
Proof.
  intros Hd. induction a as [|c a IH]; simpl.
  - rewrite Hd. unfold Str.tokenize. destruct (Str.scan delim b); reflexivity.
  - rewrite IH. destruct (Str.scan delim a) as [tok toks]. simpl.
    destruct (Str.contains c delim); simpl.
    + now rewrite push_token_app.
    + reflexivity.
Qed.

Lemma tokenize_app_delim (a b : string) (d : ascii) :
  Str.contains d delim = true ->
  Str.tokenize (a ++ String d b) delim = Str.tokenize a delim ++ Str.tokenize b delim.
Proof.
  intros Hd. unfold Str.tokenize at 1 2. rewrite (scan_app_delim a b d Hd).
  destruct (Str.scan delim a) as [tok toks]. simpl. apply push_token_app.
Qed.

Lemma scan_delimiter_free (s : string) :
  delimiter_free delim s = true -> Str.scan delim s = (s, []).
Proof.
  unfold delimiter_free.
  induction s as [|c s IH]; simpl; intros H; [reflexivity|].
  apply andb_true_iff in H. destruct H as [Hc Hs].
  rewrite (IH Hs). apply negb_true_iff in Hc. now rewrite Hc.
Qed.

Lemma tokenize_delimiter_free (s : string) :
  delimiter_free delim s = true ->
  Str.tokenize s delim = if Str.is_empty s then [] else [s].
Proof.
  intros H. unfold Str.tokenize. rewrite (scan_delimiter_free s H). reflexivity.
Qed.

Lemma scan_tokens (s : string) :
  delimiter_free delim (fst (Str.scan delim s)) = true
  /\ Forall (proper_token delim) (snd (Str.scan delim s)).
Proof.
  unfold delimiter_free.
  induction s as [|c s [IHt IHl]]; simpl.
  - split; [reflexivity | constructor].
  - destruct (Str.scan delim s) as [tok toks]. simpl in *.
    destruct (Str.contains c delim) eqn:Hc; simpl.
    + split; [reflexivity|]. unfold Str.push_token.
      destruct (Str.is_empty tok) eqn:Ht; [assumption|].
      constructor; [split|]; assumption.
    + rewrite Hc. simpl. split; assumption.
Qed.

(** Every token has at least one character and no delimiter in it. *)
Lemma tokenize_tokens (s : string) :
  Forall (proper_token delim) (Str.tokenize s delim).
Proof.
  unfold Str.tokenize. pose proof (scan_tokens s) as [Ht Hl].
  destruct (Str.scan delim s) as [tok toks]. simpl in *.
  unfold Str.push_token. destruct (Str.is_empty tok) eqn:He; [assumption|].
  constructor; [split|]; assumption.
Qed.

End Tokens.

Lemma tokenize_join (pieces : list string) :
  Forall (fun f => delimiter_free ";" f = true) pieces ->
  Str.tokenize (join pieces) ";" = filter nonempty pieces.
Proof.
  induction 1 as [|f rest Hf Hrest IH]; [reflexivity|].
  destruct rest as [|g rest].
  - simpl join. rewrite (tokenize_delimiter_free ";" f Hf). unfold nonempty. simpl.
    destruct (Str.is_empty f); reflexivity.
  - change (join (f :: g :: rest)) with (f ++ String ";" (join (g :: rest)))%string.
    rewrite tokenize_app_delim by reflexivity. rewrite IH.
    rewrite (tokenize_delimiter_free ";" f Hf).
    unfold nonempty. cbn [filter]. destruct (Str.is_empty f); reflexivity.
Qed.

(** When the delimiters met in [s] are all the one character [d], the
    tokens are the pieces between the [d]s that are not empty. *)
Lemma scan_split_at (delim : string) (d : ascii) (s : string) :
  every (fun c => Bool.eqb (Str.contains c delim) (Ascii.eqb c d)) s = true ->
  Str.scan delim s = (fst (split_at d s), filter nonempty (snd (split_at d s))).
Proof.
  induction s as [|c s IH]; simpl; intros H; [reflexivity|].
  apply andb_true_iff in H. destruct H as [Hc Hs].
  rewrite (IH Hs). apply eqb_prop in Hc. rewrite Hc.
  destruct (split_at d s) as [piece pieces]. simpl.
  destruct (Ascii.eqb c d); simpl; [|reflexivity].
  now rewrite push_token_filter.
Qed.

Lemma tokenize_split_at (delim : string) (d : ascii) (s : string) :
  every (fun c => Bool.eqb (Str.contains c delim) (Ascii.eqb c d)) s = true ->
  Str.tokenize s delim
  = filter nonempty (fst (split_at d s) :: snd (split_at d s)).
Proof.
  intros H. unfold Str.tokenize. rewrite (scan_split_at delim d s H).
  apply push_token_filter.
Qed.


Lemma every_impl (test test' : ascii -> bool) (s : string) :
  (forall c, test c = true -> test' c = true) ->
  every test s = true -> every test' s = true.
Proof.
  intros H. induction s as [|c s IH]; simpl; [reflexivity|].
  intros Hs. apply andb_true_iff in Hs. destruct Hs as [Hc Hs].
  now rewrite (H c Hc), IH.
Qed.




Lemma fragments_delimiter_free (hosts : string) :
  Forall (fun f => delimiter_free ";" f = true) (fragments hosts).
Proof.
  unfold fragments. induction hosts as [|c s IH].
  - repeat constructor.
  - simpl split_at. destruct (split_at ";" s) as [f fs].
    destruct (Ascii.eqb_spec c ";") as [->|Hne].
    + constructor; [reflexivity | assumption].
    + inversion IH as [|? ? Hf Hfs]; subst. constructor; [|assumption].
      unfold delimiter_free in *.
      change (negb (Str.contains c ";")
              && every (fun c => negb (Str.contains c ";")) f = true).
      rewrite Hf, andb_true_r. cbn [Str.contains].
      destruct (Ascii.eqb_spec ";" c); [congruence | reflexivity].
Qed.

(** ** Decimal port numbers *)

Lemma digits_all (s : string) (acc : Z) :
  every Str.isdigit s = true -> snd (Str.digits s acc) = "".
Proof.
  revert acc. induction s as [|c s IH]; intros acc; simpl; [reflexivity|].
  intros H. apply andb_true_iff in H. destruct H as [Hc Hs].
  rewrite Hc. now apply IH.
Qed.

Lemma c_str_digits (s : string) :
  every Str.isdigit s = true -> Str.c_str s = s.
Proof.
  induction s as [|c s IH]; simpl; [reflexivity|].
  intros H. apply andb_true_iff in H. destruct H as [Hc Hs].
  destruct (Ascii.eqb_spec c zero) as [->|_]; [discriminate|].
  now rewrite IH.
Qed.

(** [strtol] consumes a text made of decimal digits to its end. *)
Lemma strtol_all_digits (s : string) :
  Str.is_empty s = false ->
  every Str.isdigit s = true ->
  snd (Str.strtol s) = "".
Proof.
  destruct s as [|c r]; [discriminate|]. intros _ H.
  pose proof H as Hall. simpl in H. apply andb_true_iff in H. destruct H as [Hc Hr].
  destruct c as [[] [] [] [] [] [] [] []]; try discriminate Hc;
    unfold Str.strtol; simpl; rewrite (surjective_pairing (Str.digits r _)); simpl;
    now apply digits_all.
Qed.

(** ** Host specifications *)

Section ParseHost.

Context {E : Env}.

Lemma parse_host_direct_branch (hostName : string) :
  Str.contains "@" hostName = false ->
  parse_host hostName =
  match Str.tokenize hostName ":" with
  | [] => inl (invalid_host hostName)
  | [host] => inr (Direct host MTS_DEFAULT_PORT)
  | [host; p] =>
      if Str.is_empty (snd (Str.strtol (Str.c_str p)))
      then inr (Direct host (Str.int_of_long (fst (Str.strtol (Str.c_str p)))))
      else inl (invalid_host hostName)
  | _ :: _ :: _ :: _ => inl (invalid_host hostName)
  end.
Proof.
  intros Hat. unfold parse_host. rewrite Hat. simpl negb. cbv iota.
  destruct (Str.tokenize hostName ":") as [|t0 [|t1 [|t2 rest]]]; try reflexivity.
  simpl. destruct (Str.strtol (Str.c_str t1)) as [value end_ptr]. simpl.
  destruct (Str.is_empty end_ptr); reflexivity.
Qed.

Lemma parse_host_tunnel_branch (hostName : string) :
  Str.contains "@" hostName = true ->
  parse_host hostName =
  match Str.tokenize hostName "@:" with
  | [user; host] => inr (Tunnel user host "~/mitsuba")
  | [user; host; path] => inr (Tunnel user host path)
  | _ => inl (invalid_host hostName)
  end.
Proof.
  intros Hat. unfold parse_host. rewrite Hat. simpl negb. cbv iota.
  destruct (Str.tokenize hostName "@:") as [|t0 [|t1 [|t2 [|t3 rest]]]]; reflexivity.
Qed.

(** C3 (amended): a host specification without [@] that splits on [:]
    into one token is a direct connection to that host on the default
    port; with two tokens, the second of which [strtol] consumes to
    its end, it is a direct connection to the first token on the
    parsed port; with no token or more than two it is rejected as an
    invalid host specification. *)
Theorem parse_host_direct (hostName : string) :
  Str.contains "@" hostName = false ->
  (forall host,
      Str.tokenize hostName ":" = [host] ->
      parse_host hostName = inr (Direct host MTS_DEFAULT_PORT))
  /\ (forall host p,
      Str.tokenize hostName ":" = [host; p] ->
      snd (Str.strtol (Str.c_str p)) = "" ->
      parse_host hostName
      = inr (Direct host (Str.int_of_long (fst (Str.strtol (Str.c_str p))))))
  /\ (List.length (Str.tokenize hostName ":") = 0
      \/ 2 < List.length (Str.tokenize hostName ":") ->
      parse_host hostName = inl (LogError invalid_host_fmt [Str.c_str hostName])).
Proof.
  intros Hat. rewrite (parse_host_direct_branch hostName Hat).
  repeat split.
  - intros host ->. reflexivity.
  - intros host p -> Hend. rewrite Hend. reflexivity.
  - destruct (Str.tokenize hostName ":") as [|t0 [|t1 [|t2 rest]]];
      simpl; intros [H|H]; try reflexivity; try discriminate; lia.
Qed.

(** C4: a host specification with an [@] is never a direct connection;
    split on [@] and [:] together, two tokens give a tunnel for user
    and host with the default remote path ~/mitsuba, three tokens a
    tunnel with the third token as remote path, and any other number
    of tokens is rejected as an invalid host specification. *)
Theorem parse_host_tunnel (hostName : string) :
  Str.contains "@" hostName = true ->
  (forall host port, parse_host hostName <> inr (Direct host port))
  /\ (forall user host,
      Str.tokenize hostName "@:" = [user; host] ->
      parse_host hostName = inr (Tunnel user host "~/mitsuba"))
  /\ (forall user host path,
      Str.tokenize hostName "@:" = [user; host; path] ->
      parse_host hostName = inr (Tunnel user host path))
  /\ (List.length (Str.tokenize hostName "@:") <> 2 ->
      List.length (Str.tokenize hostName "@:") <> 3 ->
      parse_host hostName = inl (LogError invalid_host_fmt [Str.c_str hostName])).
Proof.
  intros Hat. rewrite (parse_host_tunnel_branch hostName Hat).
  repeat split.
  - intros host port.
    destruct (Str.tokenize hostName "@:") as [|t0 [|t1 [|t2 [|t3 rest]]]];
      discriminate.
  - intros user host ->. reflexivity.
  - intros user host path ->. reflexivity.
  - destruct (Str.tokenize hostName "@:") as [|t0 [|t1 [|t2 [|t3 rest]]]];
      simpl; intros H2 H3; try reflexivity; congruence.
Qed.

(** C5 (amended): a direct host specification [host:port] whose port
    [strtol] does not consume to its end is rejected with the very
    error a wrong number of tokens gets, raised by the same
    "Invalid host specification" log call; the code has no separate
    kind of error for the port. *)
Theorem parse_host_invalid_port (hostName host p : string) :
  Str.contains "@" hostName = false ->
  Str.tokenize hostName ":" = [host; p] ->
  snd (Str.strtol (Str.c_str p)) <> "" ->
  parse_host hostName = inl (LogError invalid_host_fmt [Str.c_str hostName])
  /\ forall other,
      Str.contains "@" other = false ->
      List.length (Str.tokenize other ":") = 0
      \/ 2 < List.length (Str.tokenize other ":") ->
      exists e,
        parse_host other = inl e
        /\ error_kind e = error_kind (LogError invalid_host_fmt [Str.c_str hostName]).
Proof.
  intros Hat Htok Hend. split.
  - rewrite (parse_host_direct_branch hostName Hat), Htok.
    destruct (snd (Str.strtol (Str.c_str p))); [congruence | reflexivity].
  - intros other Hother Hlen.
    exists (LogError invalid_host_fmt [Str.c_str other]).
    split; [|reflexivity].
    rewrite (parse_host_direct_branch other Hother).
    destruct (Str.tokenize other ":") as [|t0 [|t1 [|t2 rest]]];
      simpl in Hlen; try reflexivity; lia.
Qed.

(** A port written in decimal digits is always accepted. *)
Corollary numeric_port_accepted (hostName host p : string) :
  Str.contains "@" hostName = false ->
  Str.tokenize hostName ":" = [host; p] ->
  every Str.isdigit p = true ->
  parse_host hostName = inr (Direct host (Str.int_of_long (fst (Str.strtol p)))).
Proof.
  intros Hat Htok Hp.
  pose proof (tokenize_tokens ":" hostName) as Htokens. rewrite Htok in Htokens.
  inversion Htokens as [|? ? _ Hrest]; subst.
  inversion Hrest as [|? ? [Hne _] _]; subst.
  rewrite (parse_host_direct_branch hostName Hat), Htok, (c_str_digits p Hp).
  now rewrite (strtol_all_digits p Hne Hp).
Qed.

End ParseHost.

Lemma parse_host_direct_witness :
  @parse_host Examples.calm "render1" = inr (Direct "render1" 7554)
  /\ @parse_host Examples.calm "render1:1234" = inr (Direct "render1" 1234)
  /\ @parse_host Examples.calm "a:b:c" = inl (LogError invalid_host_fmt ["a:b:c"]).
Proof.
  destruct (@parse_host_direct Examples.calm "render1" eq_refl) as (H1 & _ & _).
  destruct (@parse_host_direct Examples.calm "render1:1234" eq_refl) as (_ & H2 & _).
  destruct (@parse_host_direct Examples.calm "a:b:c" eq_refl) as (_ & _ & H3).
  split; [exact (H1 "render1" eq_refl)|].
  split; [exact (H2 "render1" "1234" eq_refl eq_refl)|].
  apply H3. right. vm_compute. lia.
Defined.

(** C3, as first stated, fails: [h:x] has no [@] and two tokens, and is
    rejected instead of parsed. *)
Lemma parse_host_two_tokens_rejected :
  Str.contains "@" "h:x" = false
  /\ Str.tokenize "h:x" ":" = ["h"; "x"]
  /\ @parse_host Examples.calm "h:x" = inl (LogError invalid_host_fmt ["h:x"]).
Proof. repeat split. Qed.

Lemma parse_host_tunnel_witness :
  @parse_host Examples.calm "wenzel@node7" = inr (Tunnel "wenzel" "node7" "~/mitsuba")
  /\ @parse_host Examples.calm "wenzel@node7:/opt/mts"
     = inr (Tunnel "wenzel" "node7" "/opt/mts")
  /\ @parse_host Examples.calm "wenzel@" = inl (LogError invalid_host_fmt ["wenzel@"]).
Proof.
  destruct (@parse_host_tunnel Examples.calm "wenzel@node7" eq_refl) as (_ & H2 & _ & _).
  destruct (@parse_host_tunnel Examples.calm "wenzel@node7:/opt/mts" eq_refl)
    as (_ & _ & H3 & _).
  destruct (@parse_host_tunnel Examples.calm "wenzel@" eq_refl) as (_ & _ & _ & H4).
  split; [exact (H2 "wenzel" "node7" eq_refl)|].
  split; [exact (H3 "wenzel" "node7" "/opt/mts" eq_refl)|].
  apply H4; vm_compute; lia.
Defined.

Lemma parse_host_invalid_port_witness :
  @parse_host Examples.calm "h:80x" = inl (LogError invalid_host_fmt ["h:80x"]).
Proof.
  refine (proj1 (@parse_host_invalid_port Examples.calm "h:80x" "h" "80x"
                   eq_refl eq_refl _)).
  vm_compute. discriminate.
Defined.

(** C5, as first stated, fails: the error for a port that is not a
    number and the error for a wrong number of tokens are raised by the
    same log call and differ in the quoted host name only. *)
Lemma invalid_port_same_error_kind :
  Str.tokenize "h:x" ":" = ["h"; "x"]
  /\ snd (Str.strtol "x") = "x"
  /\ List.length (Str.tokenize "a:b:c" ":") = 3
  /\ @parse_host Examples.calm "h:x" = inl (LogError invalid_host_fmt ["h:x"])
  /\ @parse_host Examples.calm "a:b:c" = inl (LogError invalid_host_fmt ["a:b:c"])
  /\ error_kind (LogError invalid_host_fmt ["h:x"])
     = error_kind (LogError invalid_host_fmt ["a:b:c"]).
Proof. repeat split. Qed.

(** ** The worker pool *)

Section Pool.

Context {E : Env}.

Lemma local_workers_eq (n : nat) :
  local_workers n = map local_worker (seq 0 n).
Proof. reflexivity. Qed.

Lemma remote_workers_app (i : nat) (ds ds' : list descriptor) :
  remote_workers i (ds ++ ds')
  = remote_workers i ds ++ remote_workers (i + List.length ds) ds'.
Proof.
  revert i. induction ds as [|d ds IH]; intros i; simpl.
  - now rewrite Nat.add_0_r.
  - rewrite IH. now rewrite Nat.add_succ_r.
Qed.

Lemma remote_workers_length (i : nat) (ds : list descriptor) :
  List.length (remote_workers i ds) = List.length ds.
Proof. revert i. induction ds; intros; simpl; auto. Qed.

(** *** The local loop *)

Lemma register_locals_spec (count i : nat) (w : world) r w' :
  register_locals count i w = (r, w') ->
  running w' = running w
  /\ exists k,
      workers w' = workers w ++ map local_worker (seq i k)
      /\ match r with
         | inr _ =>
             k = count
             /\ trace w' = trace w ++ map EvRegister (map local_worker (seq i count))
         | inl _ =>
             k < count
             /\ trace w' = trace w ++ map EvRegister (map local_worker (seq i (S k)))
         end.
Proof.
  revert i w. induction count as [|count IH]; intros i w.
  - simpl. intros [= <- <-]. split; [reflexivity|]. exists 0. simpl.
    rewrite !app_nil_r. auto.
  - simpl. unfold bind at 1. unfold registerWorker at 1.
    destruct (register_throws w (LocalWorker (local_name i))) as [e|].
    + intros [= <- <-]. split; [reflexivity|]. exists 0. simpl.
      rewrite app_nil_r. split; [reflexivity|]. split; [lia | reflexivity].
    + intros Hrun. apply IH in Hrun. simpl in Hrun.
      destruct Hrun as (Hr & k & Hw & Hcase). split; [assumption|].
      exists (S k). split.
      * rewrite Hw, <- app_assoc. reflexivity.
      * destruct r as [e|[]]; destruct Hcase as [Hk Ht]; split;
          try lia; rewrite Ht, <- app_assoc; reflexivity.
Qed.

Lemma register_locals_none (count i : nat) (w : world) :
  count = 0 -> register_locals count i w = (inr tt, w).
Proof. intros ->. reflexivity. Qed.

(** *** One host *)

(** A descriptor is a tunnel exactly when the host name has an [@]. *)
Lemma parse_host_is_tunnel (hostName : string) (d : descriptor) :
  parse_host hostName = inr d -> is_tunnel d = Str.contains "@" hostName.
Proof.
  unfold parse_host. destruct (Str.contains "@" hostName); simpl.
  - repeat match goal with
           | |- context [if ?b then _ else _] => destruct b
           end; intros [= <-]; reflexivity.
  - destruct (Str.strtol _) as [v r].
    repeat match goal with
           | |- context [if ?b then _ else _] => destruct b
           end; intros [= <-]; reflexivity.
Qed.

Lemma connect_host_spec (i : nat) (hostName : string) (w : world) :
  host_result i hostName w
    (fst (connect_host i hostName w)) (snd (connect_host i hostName w)).
Proof.
  unfold connect_host, bind.
  destruct (parse_host hostName) as [e|d] eqn:Hparse.
  - simpl. now apply host_rejected.
  - unfold new_stream.
    destruct (stream_throws w (stream_of d)) as [e|] eqn:Hopen.
    + simpl. now apply host_unreachable with (d := d).
    + unfold try_catch_runtime_error, registerWorker.
      fold (remote_worker i d).
      destruct (register_throws (emit (EvNewStream (stream_of d)) w)
                  (remote_worker i d)) as [e|] eqn:Hreg.
      * pose proof (host_not_registered i hostName w d e Hparse Hopen Hreg) as H.
        rewrite (parse_host_is_tunnel hostName d Hparse) in H.
        destruct (is_runtime_error e); simpl in *.
        -- destruct (Str.contains "@" hostName); simpl in *;
             unfold emit; simpl; rewrite <- ?app_assoc; simpl;
             rewrite <- ?app_assoc in H; exact H.
        -- unfold emit; simpl; rewrite <- ?app_assoc; simpl.
           rewrite <- ?app_assoc in H; exact H.
      * pose proof (host_registered i hostName w d Hparse Hopen Hreg) as H.
        simpl. rewrite <- app_assoc. exact H.
Qed.

Lemma host_result_running i hostName w r w' :
  host_result i hostName w r w' -> running w' = running w.
Proof. destruct 1; reflexivity. Qed.

(** *** The connection loop *)

Lemma connect_hosts_spec (hosts : list string) (i : nat) (w : world) r w' :
  connect_hosts i hosts w = (r, w') ->
  running w' = running w
  /\ exists ds evs,
      List.length ds <= List.length hosts
      /\ map parse_host (firstn (List.length ds) hosts) = map inr ds
      /\ workers w' = workers w ++ remote_workers i ds
      /\ trace w' = trace w ++ evs
      /\ Forall remote_event evs
      /\ (r = inr tt -> List.length ds = List.length hosts).
Proof.
  revert i w. induction hosts as [|hostName rest IH]; intros i w.
  - simpl. intros [= <- <-]. split; [reflexivity|].
    exists [], []. simpl. rewrite !app_nil_r. repeat split; auto.
  - simpl. unfold bind at 1.
    pose proof (connect_host_spec i hostName w) as Hstep.
    destruct (connect_host i hostName w) as [[e|[]] w1]; simpl in Hstep.
    + intros [= <- <-]. split; [eapply host_result_running; eassumption|].
      exists []. simpl. inversion Hstep; subst; simpl.
      * exists []. rewrite !app_nil_r.
        repeat split; auto with arith; discriminate.
      * eexists. rewrite app_nil_r.
        repeat split; [auto with arith | | discriminate].
        repeat constructor.
      * eexists. rewrite app_nil_r.
        repeat split; [auto with arith | | discriminate].
        destruct (is_runtime_error e && is_tunnel d); repeat constructor.
    + intros Hrest. apply IH in Hrest.
      destruct Hrest as (Hrun & ds & evs & Hlen & Hparse & Hw & Ht & Hev & Hall).
      inversion Hstep as [| | |d Hd Hopen Hreg Hw1]; subst w1; simpl in *.
      split; [assumption|].
      exists (d :: ds), ([EvNewStream (stream_of d); EvRegister (remote_worker i d)] ++ evs).
      simpl. rewrite Hd, Hparse, Hw, Ht, <- !app_assoc. simpl.
      repeat split; auto with arith.
      repeat constructor; assumption.
Qed.

(** Once a host fails, the hosts behind it play no part. *)
Lemma connect_hosts_abort (pre : list string) (hostName : string)
      (post : list string) (i : nat) (w s : world) (e : exn) (s' : world) :
  connect_hosts i pre w = (inr tt, s) ->
  connect_host (i + List.length pre) hostName s = (inl e, s') ->
  connect_hosts i (pre ++ hostName :: post) w = (inl e, s').
Proof.
  revert i w. induction pre as [|h pre IH]; intros i w; simpl.
  - intros [= <-]. rewrite Nat.add_0_r. intros Hfail.
    unfold bind. now rewrite Hfail.
  - unfold bind. destruct (connect_host i h w) as [[e0|[]] w1].
    + discriminate.
    + intros Hpre Hfail. apply (IH (S i) w1 Hpre).
      now rewrite Nat.add_succ_r in Hfail.
Qed.

Lemma connect_hosts_done (hosts : list string) (i : nat) (w w' : world) :
  connect_hosts i hosts w = (inr tt, w') ->
  exists ds,
    map parse_host hosts = map inr ds
    /\ workers w' = workers w ++ remote_workers i ds
    /\ trace w' = trace w ++ remote_events i ds
    /\ running w' = running w.
Proof.
  revert i w. induction hosts as [|hostName rest IH]; intros i w; simpl.
  - intros [= <-]. exists []. simpl. rewrite !app_nil_r. auto.
  - unfold bind.
    pose proof (connect_host_spec i hostName w) as Hstep.
    destruct (connect_host i hostName w) as [[e|[]] w1]; simpl in Hstep;
      [discriminate|].
    intros Hrest. apply IH in Hrest. destruct Hrest as (ds & Hparse & Hw & Ht & Hr).
    inversion Hstep as [| | |d Hd Hopen Hreg Hw1]; subst w1; simpl in *.
    exists (d :: ds). simpl.
    rewrite Hd, Hparse, Hw, Ht, <- !app_assoc. auto.
Qed.

Lemma opened_app (t t' : list event) : opened (t ++ t') = opened t ++ opened t'.
Proof.
  induction t as [|ev t IH]; simpl; [reflexivity|].
  destruct ev; simpl; rewrite IH; reflexivity.
Qed.

Lemma opened_locals (ws : list nat) :
  opened (map EvRegister (map local_worker ws)) = [].
Proof. induction ws; simpl; auto. Qed.

Lemma opened_remote_events (i : nat) (ds : list descriptor) :
  opened (remote_events i ds) = map stream_of ds.
Proof. revert i. induction ds as [|d ds IH]; intros i; simpl; [|rewrite IH]; auto. Qed.

Lemma no_start_locals (ws : list nat) :
  ~ In EvStart (map EvRegister (map local_worker ws)).
Proof. induction ws; simpl; intuition discriminate. Qed.

Lemma no_start_remote_events (i : nat) (ds : list descriptor) :
  ~ In EvStart (remote_events i ds).
Proof.
  revert i. induction ds as [|d ds IH]; intros i; simpl; [tauto|].
  intros [H|[H|H]]; try discriminate. exact (IH _ H).
Qed.

(** The state a failing host leaves: its stream was attempted, perhaps
    its registration and the hint, and nothing else. *)
Lemma connect_host_fails (i : nat) (hostName : string) (w : world)
      (d : descriptor) (e : exn) :
  parse_host hostName = inr d ->
  stream_throws w (stream_of d) = Some e
  \/ (stream_throws w (stream_of d) = None
      /\ register_throws (emit (EvNewStream (stream_of d)) w) (remote_worker i d)
         = Some e) ->
  exists evs,
    connect_host i hostName w
    = (inl e, mkWorld (workers w) (running w)
                (trace w ++ EvNewStream (stream_of d) :: evs))
    /\ opened evs = [] /\ ~ In EvStart evs.
Proof.
  intros Hparse Hfail.
  pose proof (connect_host_spec i hostName w) as Hstep.
  destruct (connect_host i hostName w) as [r w1]; simpl in Hstep.
  inversion Hstep as [e0 H0|d0 e0 H0 H1|d0 e0 H0 H1 H2|d0 H0 H1 H2]; subst;
    rewrite Hparse in H0; try discriminate; injection H0 as <-;
    destruct Hfail as [Hopen|[Hopen Hreg]]; try congruence.
  - exists []. replace e0 with e by congruence. simpl. auto.
  - eexists. replace e0 with e by congruence. split; [reflexivity|].
    destruct (is_runtime_error e && is_tunnel d); simpl;
      split; auto; intuition discriminate.
Qed.

(** *** Runs in which nothing throws *)

Lemma register_locals_calm (count i : nat) (w : world) :
  (forall w i, register_throws w (local_worker i) = None) ->
  register_locals count i w
  = (inr tt,
     mkWorld (workers w ++ map local_worker (seq i count)) (running w)
       (trace w ++ map EvRegister (map local_worker (seq i count)))).
Proof.
  intros Hreg. revert i w. induction count as [|count IH]; intros i w.
  - simpl. rewrite !app_nil_r. now destruct w.
  - cbn [register_locals]. unfold bind, registerWorker.
    fold (local_worker i). rewrite Hreg, IH.
    cbn [workers running trace seq map]. now rewrite <- !app_assoc.
Qed.

Lemma connect_hosts_calm (hosts : list string) (ds : list descriptor)
      (i : nat) (w : world) :
  (forall w s, stream_throws w s = None) ->
  (forall w wk, register_throws w wk = None) ->
  map parse_host hosts = map inr ds ->
  connect_hosts i hosts w
  = (inr tt,
     mkWorld (workers w ++ remote_workers i ds) (running w)
       (trace w ++ remote_events i ds)).
Proof.
  intros Hopen Hreg. revert ds i w.
  induction hosts as [|hostName rest IH]; intros [|d ds] i w; try discriminate.
  - intros _. simpl. rewrite !app_nil_r. now destruct w.
  - cbn [map]. intros [= Hd Hrest]. cbn [connect_hosts]. unfold bind at 1.
    unfold connect_host, bind, new_stream, try_catch_runtime_error, registerWorker.
    rewrite Hd, Hopen, Hreg, (IH ds (S i) _ Hrest).
    unfold emit. cbn [workers running trace remote_workers remote_events].
    unfold remote_worker. now rewrite <- !app_assoc.
Qed.

End Pool.

(** ** Assembling the pool *)

Section Assemble.

Context {E : Env}.

Lemma register_all_done (nprocs : Z) (hosts : list string) (s : world) :
  register_all nprocs hosts initial_world = (inr tt, s) ->
  exists w1 ds,
    register_locals (Z.to_nat nprocs) 0 initial_world = (inr tt, w1)
    /\ connect_hosts 0 hosts w1 = (inr tt, s)
    /\ map parse_host hosts = map inr ds
    /\ workers s = local_workers (Z.to_nat nprocs) ++ remote_workers 0 ds
    /\ trace s = map EvRegister (local_workers (Z.to_nat nprocs)) ++ remote_events 0 ds
    /\ running s = false.
Proof.
  unfold register_all, bind.
  destruct (register_locals (Z.to_nat nprocs) 0 initial_world) as [[e|[]] w1] eqn:Hloc;
    [discriminate|].
  intros Hrem. exists w1.
  apply register_locals_spec in Hloc. destruct Hloc as (Hr1 & k & Hw1 & -> & Ht1).
  destruct (connect_hosts_done _ _ _ _ Hrem) as (ds & Hparse & Hw & Ht & Hr).
  exists ds. simpl in *. rewrite Hw, Ht, Hw1, Ht1, Hr, Hr1. repeat split; auto.
Qed.

(** C1: when every host before [hostName] was parsed, connected and
    registered, and the stream of [hostName] cannot be opened or its
    worker cannot be registered, [assemble] ends with that exception.
    The hosts behind it leave no trace: the final state is the one the
    failing host left, the streams attempted are those of the hosts up
    to the failing one, the scheduler is not started, and the local
    workers and the workers of the earlier hosts are still registered. *)
Theorem assemble_fail_fast (nprocs : Z) (pre : list string) (hostName : string)
        (post : list string) (s : world) (d : descriptor) (e : exn) :
  register_all nprocs pre initial_world = (inr tt, s) ->
  parse_host hostName = inr d ->
  stream_throws s (stream_of d) = Some e
  \/ (stream_throws s (stream_of d) = None
      /\ register_throws (emit (EvNewStream (stream_of d)) s)
           (remote_worker (List.length pre) d) = Some e) ->
  exists w' ds,
    assemble nprocs (pre ++ hostName :: post) initial_world = (inl e, w')
    /\ w' = snd (connect_host (List.length pre) hostName s)
    /\ map parse_host pre = map inr ds
    /\ opened (trace w') = map stream_of ds ++ [stream_of d]
    /\ running w' = false
    /\ ~ In EvStart (trace w')
    /\ workers w' = local_workers (Z.to_nat nprocs) ++ remote_workers 0 ds.
Proof.
  intros Hpre Hparse Hfail.
  destruct (register_all_done nprocs pre s Hpre)
    as (w1 & ds & Hloc & Hrem & Hds & Hw & Ht & Hr).
  destruct (connect_host_fails (List.length pre) hostName s d e Hparse Hfail)
    as (evs & Hstep & Hopened & Hstart).
  eexists. exists ds. split; [|split; [|split; [exact Hds|]]].
  - unfold assemble, register_all, bind. rewrite Hloc.
    rewrite (connect_hosts_abort pre hostName post 0 w1 s e _ Hrem Hstep).
    reflexivity.
  - rewrite Hstep. reflexivity.
  - simpl. rewrite Ht. unfold local_workers in *.
    rewrite !opened_app, opened_locals, opened_remote_events. simpl.
    rewrite Hopened. repeat split; auto.
    rewrite !in_app_iff. simpl.
    intros [[H|H]|[H|H]]; try discriminate.
    + exact (no_start_locals _ H).
    + exact (no_start_remote_events _ _ H).
    + exact (Hstart H).
Qed.

(** C6 (amended): for a host specification that parses to [d], a
    failure of the stream constructor leaves [connect_host] with the
    stream attempt as its only event, tunnel or not; a failure of
    building and registering the remote worker is followed by the
    passwordless-authentication hint exactly when it is a
    [std::runtime_error] and [d] is a tunnel, and the failure raised
    is the original one.  A direct connection never gets the hint. *)
Theorem tunnel_hint (i : nat) (hostName : string) (w : world)
        (d : descriptor) (e : exn) :
  parse_host hostName = inr d ->
  (stream_throws w (stream_of d) = Some e ->
   connect_host i hostName w = (inl e, emit (EvNewStream (stream_of d)) w))
  /\ (stream_throws w (stream_of d) = None ->
      register_throws (emit (EvNewStream (stream_of d)) w) (remote_worker i d)
      = Some e ->
      connect_host i hostName w
      = (inl e,
         mkWorld (workers w) (running w)
           (trace w ++ [EvNewStream (stream_of d); EvRegister (remote_worker i d)]
              ++ (if is_runtime_error e && is_tunnel d
                  then [EvWarn passwordless_hint] else []))))
  /\ (is_tunnel d = false ->
      ~ In (EvWarn passwordless_hint) (trace w) ->
      ~ In (EvWarn passwordless_hint) (trace (snd (connect_host i hostName w)))).
Proof.
  intros Hparse.
  assert (Hat : Str.contains "@" hostName = is_tunnel d)
    by (symmetry; now apply parse_host_is_tunnel).
  unfold connect_host, bind, new_stream, try_catch_runtime_error, registerWorker.
  rewrite Hparse, Hat. fold (remote_worker i d).
  split; [|split].
  - intros ->. reflexivity.
  - intros Hopen Hreg. rewrite Hopen. simpl. fold (remote_worker i d).
    rewrite Hreg. unfold emit, throw, SLog_EWarn, ret. simpl.
    destruct (is_runtime_error e); [destruct (is_tunnel d)|];
      unfold emit; simpl; rewrite <- ?app_assoc; reflexivity.
  - intros Hd Hno. rewrite Hd.
    destruct (stream_throws w (stream_of d)); simpl.
    + rewrite in_app_iff. simpl. intuition discriminate.
    + destruct (register_throws _ _) as [e'|]; [destruct (is_runtime_error e')|];
        unfold throw, ret; simpl; rewrite !in_app_iff; simpl; intuition discriminate.
Qed.

Lemma nth_error_local_workers (n j : nat) :
  j < n -> nth_error (local_workers n) j = Some (local_worker j).
Proof.
  intros Hj. unfold local_workers.
  rewrite nth_error_map, nth_error_seq.
  destruct (Nat.ltb_spec j n); [reflexivity | lia].
Qed.

Lemma nth_error_remote_workers (i : nat) (ds : list descriptor) (j : nat) d :
  nth_error ds j = Some d ->
  nth_error (remote_workers i ds) j = Some (remote_worker (i + j) d).
Proof.
  revert i j. induction ds as [|d0 ds IH]; intros i [|j]; simpl; try discriminate.
  - intros [= ->]. now rewrite Nat.add_0_r.
  - intros H. rewrite (IH (S i) j H). now rewrite Nat.add_succ_r.
Qed.

Lemma pool_names (k : nat) (ds : list descriptor) (ws : list worker) :
  ws = local_workers k ++ remote_workers 0 ds ->
  (forall j, j < k ->
     nth_error ws j = Some (LocalWorker ("wrk" ++ Str.format_int (Z.of_nat j))))
  /\ (forall j d, nth_error ds j = Some d ->
      nth_error ws (k + j)
      = Some (RemoteWorker ("net" ++ Str.format_int (Z.of_nat j)) (stream_of d))).
Proof.
  intros ->.
  assert (Hlen : List.length (local_workers k) = k)
    by (unfold local_workers; now rewrite length_map, length_seq).
  split.
  - intros j Hj. rewrite nth_error_app1 by lia.
    now apply nth_error_local_workers.
  - intros j d Hd. rewrite nth_error_app2 by lia. rewrite Hlen.
    replace (k + j - k) with j by lia.
    now apply nth_error_remote_workers.
Qed.

Lemma register_all_legal (nprocs : Z) (hosts : list string) :
  (nprocs <= 0)%Z ->
  register_all nprocs hosts initial_world = connect_hosts 0 hosts initial_world.
Proof.
  intros Hn. unfold register_all, bind.
  rewrite register_locals_none by lia. reflexivity.
Qed.

Lemma register_all_spec (nprocs : Z) (hosts : list string) r w :
  register_all nprocs hosts initial_world = (r, w) ->
  exists k attempts ds evs,
    k <= attempts <= Z.to_nat nprocs
    /\ workers w = local_workers k ++ remote_workers 0 ds
    /\ List.length ds <= List.length hosts
    /\ map parse_host (firstn (List.length ds) hosts) = map inr ds
    /\ trace w = map EvRegister (local_workers attempts) ++ evs
    /\ Forall remote_event evs
    /\ (evs <> [] \/ ds <> [] -> k = Z.to_nat nprocs)
    /\ (r = inr tt -> k = Z.to_nat nprocs /\ attempts = Z.to_nat nprocs
                      /\ List.length ds = List.length hosts).
Proof.
  unfold register_all, bind.
  destruct (register_locals (Z.to_nat nprocs) 0 initial_world) as [r1 w1] eqn:Hloc.
  apply register_locals_spec in Hloc. destruct Hloc as (Hr1 & k & Hw1 & Hcase).
  cbn [workers trace initial_world app] in Hw1, Hcase.
  destruct r1 as [e|[]]; destruct Hcase as [Hk Ht1].
  - intros [= <- <-]. exists k, (S k), [], []. simpl remote_workers.
    rewrite !app_nil_r. repeat split; auto; try lia; try discriminate.
    + simpl. lia.
    + intros [H|H]; congruence.
  - subst k. intros Hrem. apply connect_hosts_spec in Hrem.
    destruct Hrem as (Hr2 & ds & evs & Hlen & Hparse & Hw2 & Ht2 & Hev & Hall).
    rewrite Hw1 in Hw2. rewrite Ht1 in Ht2.
    exists (Z.to_nat nprocs), (Z.to_nat nprocs), ds, evs.
    repeat split; auto; lia.
Qed.

(** C8: in every run of [assemble] the registered workers are
    [wrk0 .. wrk{k-1}] in increasing order followed by remote workers
    [net0 ..], the [j]-th of them built from the [j]-th host; the
    trace begins with the local registrations and nothing of the
    connection loop happens before all [nprocs] local workers are
    registered; a count of zero or less registers no local worker and
    goes straight to the hosts; and when [assemble] succeeds every
    local worker and every host is registered.  When registering a
    local worker does not throw, all of [wrk0 .. wrk{nprocs-1}] are
    registered, first and in this order, whatever happens to the hosts;
    and when no registration and no stream throws and every host
    specification parses, [assemble] registers exactly these local
    workers followed by [net{i}] for the [i]-th host, and then starts
    the scheduler. *)
Theorem pool_order (nprocs : Z) (hosts : list string) :
  (exists k attempts ds evs,
      let w := snd (assemble nprocs hosts initial_world) in
      k <= attempts <= Z.to_nat nprocs
      /\ workers w = local_workers k ++ remote_workers 0 ds
      /\ (forall j, j < k ->
          nth_error (workers w) j
          = Some (LocalWorker ("wrk" ++ Str.format_int (Z.of_nat j))))
      /\ (forall j d, nth_error ds j = Some d ->
          nth_error (workers w) (k + j)
          = Some (RemoteWorker ("net" ++ Str.format_int (Z.of_nat j)) (stream_of d)))
      /\ List.length ds <= List.length hosts
      /\ map parse_host (firstn (List.length ds) hosts) = map inr ds
      /\ trace w = map EvRegister (local_workers attempts) ++ evs
      /\ Forall (fun ev => remote_event ev \/ ev = EvStart) evs
      /\ (evs <> [] \/ ds <> [] -> k = Z.to_nat nprocs)
      /\ ((nprocs <= 0)%Z ->
          k = 0 /\ attempts = 0
          /\ register_all nprocs hosts initial_world
             = connect_hosts 0 hosts initial_world)
      /\ (fst (assemble nprocs hosts initial_world) = inr tt ->
          k = Z.to_nat nprocs /\ List.length ds = List.length hosts))
  /\ ((forall w i, register_throws w (local_worker i) = None) ->
      exists ds evs,
        workers (snd (assemble nprocs hosts initial_world))
        = local_workers (Z.to_nat nprocs) ++ remote_workers 0 ds
        /\ trace (snd (assemble nprocs hosts initial_world))
           = map EvRegister (local_workers (Z.to_nat nprocs)) ++ evs
        /\ Forall (fun ev => remote_event ev \/ ev = EvStart) evs)
  /\ (forall ds,
        (forall w wk, register_throws w wk = None) ->
        (forall w s, stream_throws w s = None) ->
        map parse_host hosts = map inr ds ->
        assemble nprocs hosts initial_world
        = (inr tt,
           mkWorld
             (local_workers (Z.to_nat nprocs) ++ remote_workers 0 ds)
             true
             (map EvRegister (local_workers (Z.to_nat nprocs))
                ++ remote_events 0 ds ++ [EvStart]))).
Proof.
  split; [|split].
  - pose proof (register_all_legal nprocs hosts) as Hlegal.
    unfold assemble, bind, scheduler_start.
    destruct (register_all nprocs hosts initial_world) as [r w] eqn:Hrun.
    destruct (register_all_spec nprocs hosts r w Hrun)
      as (k & attempts & ds & evs & Hk & Hw & Hlen & Hparse & Ht & Hev & Hfirst & Hall).
    assert (Hzero : (nprocs <= 0)%Z -> k = 0 /\ attempts = 0) by lia.
    assert (Hforall : Forall (fun ev => remote_event ev \/ ev = EvStart) evs)
      by (eapply Forall_impl; [|exact Hev]; auto).
    destruct r as [e|[]]; cbn [fst snd].
    + exists k, attempts, ds, evs. cbv zeta.
      destruct (pool_names k ds (workers w) Hw) as [Hl Hrm].
      repeat split; auto; try lia; try discriminate; apply Hzero; assumption.
    + exists k, attempts, ds, (evs ++ [EvStart]). cbv zeta. cbn [workers trace].
      destruct (pool_names k ds (workers w) Hw) as [Hl Hrm].
      destruct (Hall eq_refl) as (Hkn & Han & Hds).
      rewrite Ht, <- app_assoc.
      repeat split; auto; try lia.
      apply Forall_app. split; [assumption|].
      constructor; [right; reflexivity | constructor].
  - intros Hlocal. unfold assemble, register_all, bind, scheduler_start.
    rewrite (register_locals_calm _ _ _ Hlocal).
    cbn [workers running trace initial_world app]. fold (local_workers (Z.to_nat nprocs)).
    destruct (connect_hosts 0 hosts _) as [r w] eqn:Hrem.
    apply connect_hosts_spec in Hrem.
    destruct Hrem as (_ & ds & evs & _ & _ & Hw & Ht & Hev & _).
    cbn [workers trace] in Hw, Ht.
    assert (Hforall : Forall (fun ev => remote_event ev \/ ev = EvStart) evs)
      by (eapply Forall_impl; [|exact Hev]; auto).
    destruct r as [e|[]]; cbn [snd workers trace].
    + exists ds, evs. auto.
    + exists ds, (evs ++ [EvStart]). rewrite Ht, <- app_assoc.
      repeat split; auto. apply Forall_app. split; [assumption|].
      constructor; [right; reflexivity | constructor].
  - intros ds Hreg Hopen Hparse. unfold assemble, register_all, bind, scheduler_start.
    rewrite (register_locals_calm _ _ _ (fun w i => Hreg w (local_worker i))).
    rewrite (connect_hosts_calm _ ds _ _ Hopen Hreg Hparse).
    cbn [workers running trace initial_world app]. unfold local_workers.
    now rewrite <- !app_assoc.
Qed.

End Assemble.

Lemma assemble_fail_fast_witness :
  exists w' ds,
    @assemble Examples.second_down 2 (["h1:1"] ++ "h2:2" :: ["h3"]) initial_world
    = (inl Examples.refused, w')
    /\ w' = snd (@connect_host Examples.second_down 1 "h2:2"
                   (snd (@register_all Examples.second_down 2 ["h1:1"] initial_world)))
    /\ map (@parse_host Examples.second_down) ["h1:1"] = map inr ds
    /\ opened (trace w') = map stream_of ds ++ [SocketStream "h2" 2]
    /\ running w' = false
    /\ ~ In EvStart (trace w')
    /\ workers w' = local_workers 2 ++ remote_workers 0 ds.
Proof.
  refine (@assemble_fail_fast Examples.second_down 2 ["h1:1"] "h2:2" ["h3"]
            (snd (@register_all Examples.second_down 2 ["h1:1"] initial_world))
            (Direct "h2" 2) Examples.refused _ _ _).
  - vm_compute. reflexivity.
  - vm_compute. reflexivity.
  - left. vm_compute. reflexivity.
Defined.

Lemma pool_order_witness :
  @assemble Examples.calm 2 ["h1"; "u@h2:/opt/mts"] initial_world
  = (inr tt,
     mkWorld
       (local_workers 2
          ++ remote_workers 0 [Direct "h1" 7554; Tunnel "u" "h2" "/opt/mts"])
       true
       (map EvRegister (local_workers 2)
          ++ remote_events 0 [Direct "h1" 7554; Tunnel "u" "h2" "/opt/mts"]
          ++ [EvStart]))
  /\ exists ds evs,
      workers (snd (@assemble Examples.second_down 3 ["h1"; "h2"] initial_world))
      = local_workers 3 ++ remote_workers 0 ds
      /\ trace (snd (@assemble Examples.second_down 3 ["h1"; "h2"] initial_world))
         = map EvRegister (local_workers 3) ++ evs
      /\ Forall (fun ev => remote_event ev \/ ev = EvStart) evs.
Proof.
  split.
  - apply (proj2 (proj2 (@pool_order Examples.calm 2 ["h1"; "u@h2:/opt/mts"]))).
    + intros w wk. reflexivity.
    + intros w s. reflexivity.
    + reflexivity.
  - apply (proj1 (proj2 (@pool_order Examples.second_down 3 ["h1"; "h2"]))).
    intros w i. reflexivity.
Defined.

Example assemble_second_host_down :
  @assemble Examples.second_down 2 ["h1:1"; "h2:2"; "h3"] initial_world
  = (inl Examples.refused,
     mkWorld [LocalWorker "wrk0"; LocalWorker "wrk1";
              RemoteWorker "net0" (SocketStream "h1" 1)]
       false
       [EvRegister (LocalWorker "wrk0"); EvRegister (LocalWorker "wrk1");
        EvNewStream (SocketStream "h1" 1);
        EvRegister (RemoteWorker "net0" (SocketStream "h1" 1));
        EvNewStream (SocketStream "h2" 2)]).
Proof. reflexivity. Qed.

Lemma tunnel_hint_witness :
  @connect_host Examples.no_handshake 0 "u@h" initial_world
  = (inl Examples.refused,
     mkWorld [] false
       ([] ++ [EvNewStream (SSHStream "u" "h" ["bash -c 'cd ~/mitsuba; . setpath.sh; mtssrv -ls'"]);
               EvRegister (RemoteWorker "net0"
                 (SSHStream "u" "h" ["bash -c 'cd ~/mitsuba; . setpath.sh; mtssrv -ls'"]))]
           ++ [EvWarn passwordless_hint])).
Proof.
  refine (proj1 (proj2 (@tunnel_hint Examples.no_handshake 0 "u@h" initial_world
                          (Tunnel "u" "h" "~/mitsuba") Examples.refused _)) _ _);
    vm_compute; reflexivity.
Defined.

(** C6, as first stated, fails: when the stream of a tunnel cannot be
    opened the exception leaves the loop body at once, and no hint is
    logged. *)
Lemma tunnel_open_failure_no_hint :
  @parse_host Examples.unreachable "u@h" = inr (Tunnel "u" "h" "~/mitsuba")
  /\ @connect_host Examples.unreachable 0 "u@h" initial_world
     = (inl Examples.refused,
        mkWorld [] false
          [EvNewStream (SSHStream "u" "h" ["bash -c 'cd ~/mitsuba; . setpath.sh; mtssrv -ls'"])])
  /\ ~ In (EvWarn passwordless_hint)
         (trace (snd (@connect_host Examples.unreachable 0 "u@h" initial_world))).
Proof.
  repeat split. vm_compute. intros [H|[]]. discriminate.
Qed.

(** ** Loading a utility plugin *)

Section PluginLoading.

Context {L : Plugin.Loader}.

Import Plugin.

Lemma release_head (h : handle) (hs : list handle) : release h (h :: hs) = hs.
Proof. simpl. now rewrite Nat.eqb_refl. Qed.


End PluginLoading.


Example plugin_loaded :
  @Plugin.UtilityPlugin_new Examples.full_module "x.so" (Plugin.mkOs [] []) =
  (inr (Plugin.mkPlugin 7 1 2),
   Plugin.mkOs [7]
     [Plugin.Dlopen "x.so"; Plugin.Dlsym 7 "GetDescription";
      Plugin.Dlsym 7 "CreateInstance"; Plugin.StaticInitialization]).
Proof. reflexivity. Qed.

(** ** The hosts string *)


Lemma add_host_eq (acc host : string) :
  Str.add_host acc host = (acc ++ String ";" host)%string.
Proof. reflexivity. Qed.

Lemma tokenize_add_host (acc host : string) :
  Str.tokenize (Str.add_host acc host) ";"
  = Str.tokenize acc ";" ++ Str.tokenize host ";".
Proof. rewrite add_host_eq. now apply tokenize_app_delim. Qed.

Lemma tokenize_fold_add_host (entries : list string) (acc : string) :
  Str.tokenize (fold_left Str.add_host entries acc) ";"
  = Str.tokenize acc ";" ++ hosts_of entries.
Proof.
  revert acc. induction entries as [|e es IH]; intros acc; simpl.
  - now rewrite app_nil_r.
  - rewrite IH, tokenize_add_host, <- app_assoc. reflexivity.
Qed.

Lemma read_hosts_fold (entries : list string) (acc : string) :
  read_hosts entries acc
  = fold_left Str.add_host (filter (fun host => negb (skipped_entry host)) entries) acc.
Proof.
  revert acc. induction entries as [|e es IH]; intros acc; simpl; [reflexivity|].
  destruct (skipped_entry e); simpl; apply IH.
Qed.

Lemma hosts_of_app (es es' : list string) :
  hosts_of (es ++ es') = hosts_of es ++ hosts_of es'.
Proof. unfold hosts_of. apply flat_map_app. Qed.




(** ** Host files *)

Lemma newline_is_space (c : ascii) :
  (Ascii.eqb c newline || negb (Str.contains c Str.whitespace)) = true ->
  Bool.eqb (Str.contains c Str.whitespace) (Ascii.eqb c newline) = true.
Proof.
  destruct (Ascii.eqb_spec c newline) as [->|Hne]; [reflexivity|].
  cbn [orb]. intros H. apply negb_true_iff in H. now rewrite H.
Qed.

Lemma words_lines (content : string) :
  entry_per_line content = true ->
  Str.words content = filter nonempty (all_lines content).
Proof.
  intros H. unfold entry_per_line in H.
  apply (every_impl _ _ _ newline_is_space) in H.
  change (Str.words content) with (Str.tokenize content Str.whitespace).
  rewrite (tokenize_split_at Str.whitespace newline content H).
  unfold all_lines. destruct (split_at newline content); reflexivity.
Qed.

Lemma skipped_entry_nonempty (l : string) :
  nonempty l = true -> skipped_entry l = starts_with_hash l.
Proof. destruct l; [discriminate | reflexivity]. Qed.

Lemma kept_lines (ls : list string) :
  filter (fun host => negb (skipped_entry host)) (filter nonempty ls)
  = filter (fun l => nonempty l && negb (starts_with_hash l)) ls.
Proof.
  induction ls as [|l ls IH]; [reflexivity|].
  cbn [filter]. destruct (nonempty l) eqn:Hl; cbn [filter andb]; [|exact IH].
  rewrite (skipped_entry_nonempty l Hl), IH. reflexivity.
Qed.

Lemma file_entries_lines (content : string) :
  entry_per_line content = true ->
  file_entries content
  = filter (fun l => nonempty l && negb (starts_with_hash l)) (all_lines content).
Proof.
  intros H. unfold file_entries. rewrite (words_lines content H). apply kept_lines.
Qed.

(** ** The option loop *)

Section Options.

Context {E : Env}.

Lemma getopt_loop_hosts (opts : list (ascii * string)) (st : settings)
      (w : world) (st' : settings) (w' : world) :
  getopt_loop opts st w = (inr (Some st'), w') ->
  networkHosts st'
  = fold_left Str.add_host (supplied_entries opts) (networkHosts st).
Proof.
  revert st. induction opts as [|[optchar optarg] rest IH]; intros st.
  - simpl. unfold ret. now intros [= <- <-].
  - unfold supplied_entries. cbn [flat_map]. fold (supplied_entries rest).
    rewrite fold_left_app. unfold option_entries. cbn [fst snd getopt_loop].
    destruct (classify optchar); try (intros H; apply IH in H; exact H).
    + destruct (ifstream optarg) as [content|].
      * intros H. apply IH in H. cbn [networkHosts] in H.
        rewrite H, read_hosts_fold. reflexivity.
      * discriminate.
    + destruct (Str.strtol optarg) as [value end_ptr].
      destruct (Str.is_empty end_ptr); simpl; [|discriminate].
      intros H. apply IH in H. exact H.
    + unfold bind, help, ret. discriminate.
Qed.

Lemma supplied_hosts (opts : list (ascii * string)) :
  hosts_of (supplied_entries opts)
  = flat_map (fun o => hosts_of (option_entries o)) opts.
Proof.
  unfold supplied_entries. induction opts as [|o rest IH]; [reflexivity|].
  simpl. now rewrite hosts_of_app, IH.
Qed.

(** C9 (amended): when the option loop runs to its end, the hosts of
    the connection loop are those of the [-c] and [-s] options in the
    order of the options on the command line, each option giving its
    hosts in their own order; an empty hosts string gives no host and
    a connection loop that does nothing; and of a host file with at
    most one entry per line and no other white space, the lines that
    are not blank and do not begin with [#] are the entries, in file
    order. *)
Theorem parsed_hosts_order (opts : list (ascii * string))
        (st' : settings) (w' : world) :
  getopt_loop opts default_settings initial_world = (inr (Some st'), w') ->
  parsed_hosts st' = flat_map (fun o => hosts_of (option_entries o)) opts
  /\ (networkHosts st' = "" ->
      parsed_hosts st' = []
      /\ forall i w, connect_hosts i (parsed_hosts st') w = (inr tt, w))
  /\ (forall name content,
        ifstream name = Some content ->
        entry_per_line content = true ->
        option_entries ("s"%char, name)
        = filter (fun l => nonempty l && negb (starts_with_hash l))
            (all_lines content)).
Proof.
  intros Hloop. apply getopt_loop_hosts in Hloop. cbn [networkHosts default_settings] in Hloop.
  unfold parsed_hosts. split; [|split].
  - rewrite Hloop, tokenize_fold_add_host. simpl. apply supplied_hosts.
  - intros ->. split; reflexivity.
  - intros name content Hfile Hlines. unfold option_entries. cbn [fst snd classify].
    change (classify "s") with case_s. cbv iota.
    rewrite Hfile. now apply file_entries_lines.
Qed.

End Options.

Lemma parsed_hosts_order_witness :
  parsed_hosts (mkSettings 2 "node" ";b;u@n;a;c:1" false false)
  = flat_map (fun o => hosts_of (@option_entries Examples.calm o))
      [("s"%char, "hosts.txt"); ("c"%char, "a;c:1")]
  /\ parsed_hosts (mkSettings 2 "node" ";b;u@n;a;c:1" false false) = ["b"; "u@n"; "a"; "c:1"].
Proof.
  split; [|reflexivity].
  refine (proj1 (@parsed_hosts_order Examples.calm
                   [("s"%char, "hosts.txt"); ("c"%char, "a;c:1")]
                   (mkSettings 2 "node" ";b;u@n;a;c:1" false false)
                   initial_world _)).
  vm_compute. reflexivity.
Defined.

(** C9, as first stated, fails: with [-s hosts.txt -c a] the hosts of
    the file come before the host of the command line. *)
Lemma file_hosts_before_command_line_hosts :
  @getopt_loop Examples.calm [("s"%char, "hosts.txt"); ("c"%char, "a")]
    (@default_settings Examples.calm) initial_world
  = (inr (Some (mkSettings 2 "node" ";b;u@n;a" false false)), initial_world)
  /\ parsed_hosts (mkSettings 2 "node" ";b;u@n;a" false false) = ["b"; "u@n"; "a"]
  /\ command_line_hosts [("s"%char, "hosts.txt"); ("c"%char, "a")] = ["a"]
  /\ @file_hosts Examples.calm [("s"%char, "hosts.txt"); ("c"%char, "a")] = ["b"; "u@n"]
  /\ parsed_hosts (mkSettings 2 "node" ";b;u@n;a" false false)
     <> command_line_hosts [("s"%char, "hosts.txt"); ("c"%char, "a")]
        ++ @file_hosts Examples.calm [("s"%char, "hosts.txt"); ("c"%char, "a")].
Proof. repeat split. vm_compute. discriminate. Qed.

(** Extraction by words: a comment line of several words hides only its
    first word. *)
Example comment_line_of_three_words :
  file_entries ("# my farm" ++ Examples.line_break ++ "b") = ["my"; "farm"; "b"].
Proof. reflexivity. Qed.

(** ** Exit status *)

Section ExitStatus.

Context {E : Env}.

(** An exception raised anywhere in the [try] block is caught by
    [ubi_main], which then returns 0. *)
Lemma ubi_main_caught (argc : Z) (opts : list (ascii * string)) (optind : Z)
      (e : exn) (w : world) :
  ubi_main_try argc opts optind initial_world = (inl e, w) ->
  ubi_main argc opts optind = (0%Z, emit (EvCaught e) w).
Proof. intros H. unfold ubi_main. now rewrite H. Qed.

Lemma ubi_main_help (argc : Z) (opts : list (ascii * string)) (optind : Z) :
  (argc < 2)%Z ->
  ubi_main argc opts optind = (0%Z, emit EvHelp initial_world).
Proof.
  intros H. unfold ubi_main, ubi_main_try.
  destruct (Z.ltb_spec argc 2); [reflexivity | lia].
Qed.

(** The only values [ubi_main] returns, and when it returns [-1]: the
    pool was assembled, the scheduler started, and no utility name is
    left on the command line. *)
Lemma ubi_main_status (argc : Z) (opts : list (ascii * string)) (optind : Z) :
  fst (ubi_main argc opts optind) = 0%Z
  \/ (fst (ubi_main argc opts optind) = (-1)%Z
      /\ (argc <= optind)%Z
      /\ running (snd (ubi_main argc opts optind)) = true).
Proof.
  unfold ubi_main, ubi_main_try.
  destruct (argc <? 2)%Z; [left; reflexivity|].
  unfold bind, ret, cerr, create_utility.
  destruct (getopt_loop opts default_settings initial_world) as [[e|[st|]] w];
    try (left; reflexivity).
  destruct (assemble (nprocs st) (Str.tokenize (networkHosts st) ";") w)
    as [[e|[]] w1] eqn:Hpool; [left; reflexivity|].
  destruct (Z.leb_spec argc optind).
  - right. simpl. split; [reflexivity|]. split; [assumption|].
    unfold assemble, bind in Hpool.
    destruct (register_all _ _ w) as [[e|[]] w2]; [discriminate|].
    unfold scheduler_start in Hpool. now injection Hpool as <-.
  - left. destruct (utility_throws w1); reflexivity.
Qed.

End ExitStatus.

(** C7 fails on the code: after [mtsutil -c a:b:c util] the invalid
    host specification is caught by [ubi_main] as a critical exception,
    and the exit status is nevertheless 0. *)
Theorem critical_exception_exit_status :
  @ubi_main Examples.calm 4 [("c"%char, "a:b:c")] 3
  = (0%Z,
     mkWorld [LocalWorker "wrk0"; LocalWorker "wrk1"] false
       [EvRegister (LocalWorker "wrk0"); EvRegister (LocalWorker "wrk1");
        EvCaught (LogError invalid_host_fmt ["a:b:c"])])
  /\ @main Examples.calm None 4 [("c"%char, "a:b:c")] 3 = Exit 0.
Proof. split; reflexivity. Qed.

Example missing_utility_name :
  @main Examples.calm None 3 [("p"%char, "1")] 3 = Exit (-1).
Proof. reflexivity. Qed.

Example help_requested :
  @main Examples.calm None 2 [("h"%char, "")] 2 = Exit 0.
Proof. reflexivity. Qed.

Example normal_completion :
  @ubi_main Examples.calm 3 [("q"%char, "")] 2
  = (0%Z,
     mkWorld [LocalWorker "wrk0"; LocalWorker "wrk1"] true
       [EvRegister (LocalWorker "wrk0"); EvRegister (LocalWorker "wrk1");
        EvStart; EvCreateUtility]).
Proof. reflexivity. Qed.

(** ** More on the option loop *)

Section OptionLoop.

Context {E : Env}.

(** The loop leaves the state alone, except for printing the help text
    when it ends [ubi_main]. *)
Lemma getopt_loop_world (opts : list (ascii * string)) (st : settings)
      (w : world) r w' :
  getopt_loop opts st w = (r, w') ->
  match r with
  | inr None => w' = emit EvHelp w
  | _ => w' = w
  end.
Proof.
  revert st. induction opts as [|[optchar optarg] rest IH]; intros st.
  - simpl. unfold ret. now intros [= <- <-].
  - cbn [getopt_loop].
    destruct (classify optchar); try (now apply IH).
    + destruct (ifstream optarg); [now apply IH|].
      unfold SLog_EError, throw. now intros [= <- <-].
    + destruct (Str.strtol optarg) as [value end_ptr].
      destruct (Str.is_empty end_ptr); simpl; [now apply IH|].
      unfold SLog_EError, throw. now intros [= <- <-].
    + unfold bind, help, ret. now intros [= <- <-].
Qed.

(** Running the loop over two stretches of options, one after the other. *)
Lemma getopt_loop_app (o1 o2 : list (ascii * string)) (st : settings) (w : world) :
  getopt_loop (o1 ++ o2) st w
  = match getopt_loop o1 st w with
    | (inr (Some st1), w1) => getopt_loop o2 st1 w1
    | r => r
    end.
Proof.
  revert st. induction o1 as [|[optchar optarg] rest IH]; intros st.
  - reflexivity.
  - cbn [app getopt_loop].
    destruct (classify optchar); try apply IH.
    + destruct (ifstream optarg); [apply IH | reflexivity].
    + destruct (Str.strtol optarg) as [value end_ptr].
      destruct (Str.is_empty end_ptr); simpl; [apply IH | reflexivity].
    + reflexivity.
Qed.

Lemma getopt_loop_passes (opts : list (ascii * string)) (st : settings) (w : world) :
  forallb (fun o => negb (stops_loop o)) opts = true ->
  exists st', getopt_loop opts st w = (inr (Some st'), w).
Proof.
  revert st. induction opts as [|[optchar optarg] rest IH]; intros st.
  - intros _. exists st. reflexivity.
  - cbn [forallb getopt_loop]. unfold stops_loop at 1. cbn [fst snd].
    intros H. apply andb_true_iff in H. destruct H as [Ho Hrest].
    destruct (classify optchar); try (now apply IH).
    + destruct (ifstream optarg); [now apply IH | discriminate].
    + destruct (Str.strtol optarg) as [value end_ptr]. simpl in Ho.
      rewrite negb_involutive in Ho. rewrite Ho. simpl. now apply IH.
    + discriminate.
Qed.

Lemma getopt_loop_stops (o : ascii * string) (rest : list (ascii * string))
      (st : settings) (w : world) :
  stops_loop o = true ->
  getopt_loop (o :: rest) st w = stop_result o w.
Proof.
  destruct o as [optchar optarg]. unfold stops_loop, stop_result.
  cbn [fst snd getopt_loop].
  destruct (classify optchar); try discriminate.
  - destruct (ifstream optarg); [discriminate | reflexivity].
  - destruct (Str.strtol optarg) as [value end_ptr]. simpl.
    intros ->. reflexivity.
  - reflexivity.
Qed.

Lemma first_stop (opts : list (ascii * string)) :
  existsb stops_loop opts = true ->
  exists pre o rest,
    opts = pre ++ o :: rest
    /\ forallb (fun o => negb (stops_loop o)) pre = true
    /\ stops_loop o = true.
Proof.
  induction opts as [|o opts IH]; [discriminate|].
  cbn [existsb]. destruct (stops_loop o) eqn:Ho.
  - intros _. exists [], o, opts. auto.
  - simpl. intros H. destruct (IH H) as (pre & o' & rest & -> & Hpre & Ho').
    exists (o :: pre), o', rest. cbn [forallb]. rewrite Ho. auto.
Qed.

(** X1: the first option that is [-h] or unknown, a [-s] with a file
    that cannot be opened, or a [-p] with a malformed count ends the
    option loop: the options behind it are not looked at, the settings
    gathered so far are dropped, and the loop ends with the help text
    or with the error of that option. *)
Theorem option_loop_stops_at_first (pre : list (ascii * string))
        (o : ascii * string) (rest : list (ascii * string))
        (st : settings) (w : world) :
  forallb (fun o => negb (stops_loop o)) pre = true ->
  stops_loop o = true ->
  getopt_loop (pre ++ o :: rest) st w = stop_result o w
  /\ getopt_loop (pre ++ o :: rest) st w = getopt_loop (pre ++ [o]) st w.
Proof.
  intros Hpre Ho.
  destruct (getopt_loop_passes pre st w Hpre) as [st1 Hst1].
  rewrite !getopt_loop_app, Hst1, !(getopt_loop_stops o _ st1 w Ho). auto.
Qed.

(** The loop runs to its end exactly when no option stops it. *)
Lemma getopt_loop_completes (opts : list (ascii * string)) (st : settings) (w : world) :
  (exists st' w', getopt_loop opts st w = (inr (Some st'), w'))
  <-> existsb stops_loop opts = false.
Proof.
  split.
  - intros (st' & w' & Hrun).
    destruct (existsb stops_loop opts) eqn:Hex; [|reflexivity].
    destruct (first_stop opts Hex) as (pre & o & rest & -> & Hpre & Ho).
    destruct (getopt_loop_passes pre st w Hpre) as [st1 Hst1].
    rewrite getopt_loop_app, Hst1, (getopt_loop_stops o rest st1 w Ho) in Hrun.
    unfold stop_result in Hrun. destruct (classify (fst o)); discriminate.
  - intros Hex.
    destruct (getopt_loop_passes opts st w) as [st' Hst'].
    + clear st w. induction opts as [|o opts IH]; [reflexivity|].
      cbn [existsb forallb] in *. apply orb_false_iff in Hex.
      destruct Hex as [-> Hex]. now apply IH.
    + now exists st', w.
Qed.

(** The settings with which a completed loop leaves, from any start. *)
Lemma getopt_loop_settings (opts : list (ascii * string)) (st : settings)
      (w : world) (st' : settings) (w' : world) :
  getopt_loop opts st w = (inr (Some st'), w') ->
  nprocs st' = match last_optarg is_case_p opts with
               | Some count => Str.int_of_long (fst (Str.strtol count))
               | None => nprocs st
               end
  /\ nodeName st' = match last_optarg is_case_n opts with
                    | Some name => name
                    | None => nodeName st
                    end
  /\ quietMode st' = quietMode st || existsb (fun o => is_case_q (classify (fst o))) opts
  /\ verbose st' = verbose st || existsb (fun o => is_case_v (classify (fst o))) opts.
Proof.
  revert st. induction opts as [|[optchar optarg] rest IH]; intros st.
  - simpl. unfold ret. intros [= <- <-]. now rewrite !orb_false_r.
  - cbn [getopt_loop last_optarg existsb fst].
    destruct (classify optchar) eqn:Hcase; cbn [is_case_p is_case_n is_case_q is_case_v];
      try (intros H; apply IH in H; cbn [nprocs nodeName quietMode verbose] in H;
           destruct H as (Hp & Hn & Hq & Hv); rewrite Hp, Hn, Hq, Hv;
           destruct (last_optarg is_case_p rest), (last_optarg is_case_n rest);
           rewrite ?orb_true_l, ?orb_false_l, ?orb_true_r; auto; fail).
    + destruct (ifstream optarg); [|discriminate].
      intros H; apply IH in H; cbn [nprocs nodeName quietMode verbose] in H.
      destruct H as (Hp & Hn & Hq & Hv); rewrite Hp, Hn, Hq, Hv.
      destruct (last_optarg is_case_p rest), (last_optarg is_case_n rest); auto.
    + destruct (Str.strtol optarg) as [value end_ptr] eqn:Hconv.
      destruct (Str.is_empty end_ptr); simpl negb; cbv iota; [|discriminate].
      intros H; apply IH in H; cbn [nprocs nodeName quietMode verbose] in H.
      destruct H as (Hp & Hn & Hq & Hv); rewrite Hp, Hn, Hq, Hv.
      destruct (last_optarg is_case_p rest), (last_optarg is_case_n rest);
        rewrite ?Hconv; cbn [fst]; auto.
    + unfold bind, help, ret. discriminate.
Qed.

(** X2: when the option loop completes, the processor count is that of
    the last [-p] option (converted by [strtol], narrowed to [int]) or
    the detected count when there is none, the node name is that of the
    last [-n] option or the host name, and quiet and verbose mode are on
    exactly when [-q] and [-v] occur. *)
Theorem settings_of_options (opts : list (ascii * string))
        (st' : settings) (w' : world) :
  getopt_loop opts default_settings initial_world = (inr (Some st'), w') ->
  nprocs st' = match last_optarg is_case_p opts with
               | Some count => Str.int_of_long (fst (Str.strtol count))
               | None => getProcessorCount
               end
  /\ nodeName st' = match last_optarg is_case_n opts with
                    | Some name => name
                    | None => getHostName
                    end
  /\ quietMode st' = existsb (fun o => is_case_q (classify (fst o))) opts
  /\ verbose st' = existsb (fun o => is_case_v (classify (fst o))) opts.
Proof.
  intros H. exact (getopt_loop_settings opts default_settings initial_world st' w' H).
Qed.



(** A splitter that keeps the empty pieces never returns zero pieces:
    the empty sequence for an empty text and the descriptor of zero
    tokens are met only when empty pieces are no tokens. *)
Lemma fragments_never_none (hosts : string) : fragments hosts <> [].
Proof. unfold fragments. destruct (split_at ";" hosts). discriminate. Qed.



End OptionLoop.


(** ** Runs of [ubi_main] *)

Section Runs.

Context {E : Env}.

(** [ubi_main] with its exceptions resolved. *)
Lemma ubi_main_cases (argc : Z) (opts : list (ascii * string)) (optind : Z) :
  ubi_main argc opts optind
  = if (argc <? 2)%Z then (0%Z, emit EvHelp initial_world)
    else
      match getopt_loop opts default_settings initial_world with
      | (inl e, w) => (0%Z, emit (EvCaught e) w)
      | (inr None, w) => (0%Z, w)
      | (inr (Some st), w) =>
          match assemble (nprocs st) (parsed_hosts st) w with
          | (inl e, w1) => (0%Z, emit (EvCaught e) w1)
          | (inr _, w1) =>
              if (argc <=? optind)%Z
              then ((-1)%Z, emit (EvCerr "A utility name must be supplied!") w1)
              else
                match utility_throws w1 with
                | Some e => (0%Z, emit (EvCaught e) (emit EvCreateUtility w1))
                | None => (0%Z, emit EvCreateUtility w1)
                end
          end
      end.
Proof.
  unfold ubi_main, ubi_main_try, parsed_hosts.
  destruct (argc <? 2)%Z; [reflexivity|].
  unfold bind, ret, cerr, create_utility.
  destruct (getopt_loop opts default_settings initial_world) as [[e|[st|]] w];
    try reflexivity.
  destruct (assemble (nprocs st) (Str.tokenize (networkHosts st) ";") w)
    as [[e|[]] w1]; try reflexivity.
  destruct (argc <=? optind)%Z; [reflexivity|].
  destruct (utility_throws w1); reflexivity.
Qed.

(** X3: the command line is read to its end before the pool is touched.
    When some option ends the option loop (help, an unknown option, a
    host file that cannot be opened, a malformed processor count),
    [ubi_main] returns 0 with no worker registered, no stream opened
    and the scheduler not started; all it did was print the help text
    or report the exception. *)
Theorem options_before_pool (argc : Z) (opts : list (ascii * string)) (optind : Z) :
  existsb stops_loop opts = true ->
  exists ev,
    ubi_main argc opts optind = (0%Z, mkWorld [] false [ev])
    /\ (ev = EvHelp \/ exists e, ev = EvCaught e).
Proof.
  intros Hstop. rewrite ubi_main_cases.
  destruct (argc <? 2)%Z.
  - exists EvHelp. split; [reflexivity | now left].
  - destruct (first_stop opts Hstop) as (pre & o & rest & -> & Hpre & Ho).
    destruct (getopt_loop_passes pre default_settings initial_world Hpre) as [st1 Hst1].
    rewrite getopt_loop_app, Hst1, (getopt_loop_stops o rest st1 _ Ho).
    unfold stop_result.
    destruct (classify (fst o));
      try (exists EvHelp; split; [reflexivity | now left]);
      eexists; (split; [reflexivity | right; eexists; reflexivity]).
Qed.

(** X4: [ubi_main] returns [-1] exactly when there are at least two
    command-line words, the option loop completes, the whole pool is
    registered and the scheduler started, and no word is left for the
    utility name; in every other run, failures included, it returns 0. *)
Theorem ubi_main_exit_status (argc : Z) (opts : list (ascii * string)) (optind : Z) :
  (fst (ubi_main argc opts optind) = (-1)%Z
   <-> (2 <= argc)%Z /\ (argc <= optind)%Z
       /\ exists st,
           getopt_loop opts default_settings initial_world
           = (inr (Some st), initial_world)
           /\ fst (assemble (nprocs st) (parsed_hosts st) initial_world) = inr tt)
  /\ (fst (ubi_main argc opts optind) <> (-1)%Z ->
      fst (ubi_main argc opts optind) = 0%Z).
Proof.
  rewrite ubi_main_cases.
  destruct (Z.ltb_spec argc 2) as [Hargc|Hargc].
  - split; [|reflexivity]. split; [discriminate | lia].
  - destruct (getopt_loop opts default_settings initial_world) as [r w] eqn:Hloop.
    pose proof (getopt_loop_world _ _ _ _ _ Hloop) as Hw.
    destruct r as [e|[st|]]; cbn [fst].
    + split; [|reflexivity]. split; [discriminate|].
      intros (_ & _ & st & [=] & _).
    + subst w.
      destruct (assemble (nprocs st) (parsed_hosts st) initial_world)
        as [[e|[]] w1] eqn:Hpool.
      * split; [|reflexivity]. split; [discriminate|].
        intros (_ & _ & st0 & [= <-] & Hok). rewrite Hpool in Hok. discriminate.
      * destruct (Z.leb_spec argc optind) as [Hleft|Hleft].
        -- split; [|intros H; now elim H]. split; [|reflexivity].
           intros _. repeat split; [assumption..|]. exists st. rewrite Hpool. auto.
        -- destruct (utility_throws w1); (split; [|reflexivity]);
             (split; [discriminate | lia]).
    + split; [|reflexivity]. split; [discriminate|].
      intros (_ & _ & st & [=] & _).
Qed.

(** X5: when no collaborator throws, the option loop completes and
    every host specification parses, [ubi_main] registers
    [wrk0 .. wrk{nprocs-1}] and then one remote worker per host in the
    order of the hosts, starts the scheduler after the last
    registration, logs no hint, and returns [-1] when the utility name
    is missing and 0 otherwise. *)
Theorem ubi_main_success (argc : Z) (opts : list (ascii * string)) (optind : Z)
        (st : settings) (w0 : world) (ds : list descriptor) :
  never_throws E ->
  (2 <= argc)%Z ->
  getopt_loop opts default_settings initial_world = (inr (Some st), w0) ->
  map parse_host (parsed_hosts st) = map inr ds ->
  ubi_main argc opts optind
  = (if (argc <=? optind)%Z then (-1)%Z else 0%Z,
     mkWorld
       (local_workers (Z.to_nat (nprocs st)) ++ remote_workers 0 ds)
       true
       (map EvRegister (local_workers (Z.to_nat (nprocs st)))
          ++ remote_events 0 ds
          ++ [EvStart;
              if (argc <=? optind)%Z
              then EvCerr "A utility name must be supplied!"
              else EvCreateUtility])).
Proof.
  intros (Hopen & Hreg & Hutil) Hargc Hloop Hparse.
  pose proof (getopt_loop_world _ _ _ _ _ Hloop) as Hw. cbv iota beta in Hw. subst w0.
  rewrite ubi_main_cases.
  destruct (Z.ltb_spec argc 2); [lia|].
  rewrite Hloop. unfold assemble, register_all, bind.
  rewrite (register_locals_calm _ _ _ (fun w i => Hreg w (local_worker i))).
  rewrite (connect_hosts_calm _ ds _ _ Hopen Hreg Hparse).
  unfold scheduler_start, local_workers, emit.
  cbn [workers running trace initial_world app].
  destruct (argc <=? optind)%Z.
  - now rewrite <- !app_assoc.
  - rewrite Hutil. cbn [workers running trace]. now rewrite <- !app_assoc.
Qed.

End Runs.

(** ** Unloading a plugin *)

Section PluginLifetime.

Context {L : Plugin.Loader}.

Import Plugin.

Lemma UtilityPlugin_new_held (path : string) (s : os) (p : UtilityPlugin) (s' : os) :
  UtilityPlugin_new path s = (inr p, s') ->
  held s' = m_handle p :: held s.
Proof.
  unfold UtilityPlugin_new, bind, open_module, try_catch_all_rethrow, getSymbol,
    dlclose, Class_staticInitialization, ret.
  destruct (dlopen s path) as [h|]; [|discriminate].
  destruct (dlsym _ h "GetDescription"); [|discriminate].
  destruct (dlsym _ h "CreateInstance"); [|discriminate].
  now intros [= <- <-].
Qed.

(** X6: destroying a plugin right after its construction closes the
    very handle [dlopen] returned, as the last call, and leaves the
    process with the handles it held before the construction. *)
Theorem plugin_load_unload (path : string) (s : os) (p : UtilityPlugin) (s' : os) :
  UtilityPlugin_new path s = (inr p, s') ->
  dlopen s path = Some (m_handle p)
  /\ UtilityPlugin_delete p s'
     = (inr tt, mkOs (held s) (calls s' ++ [Dlclose (m_handle p)])).
Proof.
  intros Hnew. pose proof (UtilityPlugin_new_held _ _ _ _ Hnew) as Hheld.
  split.
  - revert Hnew.
    unfold UtilityPlugin_new, bind, open_module, try_catch_all_rethrow, getSymbol,
      dlclose, Class_staticInitialization, ret.
    destruct (dlopen s path) as [h|]; [|discriminate].
    destruct (dlsym _ h "GetDescription"); [|discriminate].
    destruct (dlsym _ h "CreateInstance"); [|discriminate].
    now intros [= <- _].
  - unfold UtilityPlugin_delete, dlclose. now rewrite Hheld, release_head.
Qed.

(** X7: two plugins loaded one after the other may be destroyed in
    either order, also when the loader gave both the same handle: each
    destructor gives up one hold, and after both the process holds the
    handles it held at the start. *)
Theorem plugins_unload_any_order (path1 path2 : string) (s s1 s2 : os)
        (p1 p2 : UtilityPlugin) :
  UtilityPlugin_new path1 s = (inr p1, s1) ->
  UtilityPlugin_new path2 s1 = (inr p2, s2) ->
  held (snd (UtilityPlugin_delete p2 (snd (UtilityPlugin_delete p1 s2)))) = held s
  /\ held (snd (UtilityPlugin_delete p1 (snd (UtilityPlugin_delete p2 s2)))) = held s.
Proof.
  intros H1 H2.
  apply UtilityPlugin_new_held in H1. apply UtilityPlugin_new_held in H2.
  unfold UtilityPlugin_delete, dlclose. cbn [snd held].
  rewrite H2, H1. split.
  - cbn [release]. destruct (Nat.eqb_spec (m_handle p1) (m_handle p2)) as [Heq|Hne].
    + rewrite Heq. apply release_head.
    + rewrite Nat.eqb_refl. apply release_head.
  - rewrite release_head. apply release_head.
Qed.

End PluginLifetime.

Lemma plugin_load_unload_witness :
  @Plugin.UtilityPlugin_delete (Plugin.mkPlugin 7 1 2)
    (Plugin.mkOs [7; 3]
       [Plugin.Dlopen "x.so"; Plugin.Dlsym 7 "GetDescription";
        Plugin.Dlsym 7 "CreateInstance"; Plugin.StaticInitialization])
  = (inr tt,
     Plugin.mkOs [3]
       ([Plugin.Dlopen "x.so"; Plugin.Dlsym 7 "GetDescription";
         Plugin.Dlsym 7 "CreateInstance"; Plugin.StaticInitialization]
          ++ [Plugin.Dlclose 7])).
Proof.
  exact (proj2 (@plugin_load_unload Examples.full_module "x.so" (Plugin.mkOs [3] [])
                  (Plugin.mkPlugin 7 1 2) _ eq_refl)).
Defined.

Lemma plugins_unload_any_order_witness :
  Plugin.held
    (snd (Plugin.UtilityPlugin_delete (Plugin.mkPlugin 7 1 2)
            (snd (Plugin.UtilityPlugin_delete (Plugin.mkPlugin 7 1 2)
                    (snd (@Plugin.UtilityPlugin_new Examples.full_module "y.so"
                            (snd (@Plugin.UtilityPlugin_new Examples.full_module "x.so"
                                    (Plugin.mkOs [3] []))))))))) = [3].
Proof.
  exact (proj1 (@plugins_unload_any_order Examples.full_module "x.so" "y.so"
                  (Plugin.mkOs [3] []) _ _ (Plugin.mkPlugin 7 1 2) (Plugin.mkPlugin 7 1 2)
                  eq_refl eq_refl)).
Defined.

(** ** Worker names *)

Lemma format_int_inj (a b : Z) : Str.format_int a = Str.format_int b -> a = b.
Proof.
  unfold Str.format_int. intros H.
  apply DecimalZ.to_int_inj.
  assert (Hs : Some (Z.to_int a) = Some (Z.to_int b))
    by (rewrite <- !NilEmpty.isi; now rewrite H).
  now injection Hs.
Qed.

Lemma local_name_inj (i j : nat) : local_name i = local_name j -> i = j.
Proof.
  unfold local_name. intros [= H]. apply format_int_inj in H. lia.
Qed.

Lemma remote_name_inj (i j : nat) : remote_name i = remote_name j -> i = j.
Proof.
  unfold remote_name. intros [= H]. apply format_int_inj in H. lia.
Qed.

Lemma names_local_workers (k : nat) :
  map worker_name (local_workers k) = map local_name (seq 0 k).
Proof. unfold local_workers. rewrite map_map. reflexivity. Qed.

Lemma names_remote_workers (i : nat) (ds : list descriptor) :
  map worker_name (remote_workers i ds) = map remote_name (seq i (List.length ds)).
Proof.
  revert i. induction ds as [|d ds IH]; intros i; simpl; [reflexivity|].
  now rewrite IH.
Qed.

Lemma pool_names_distinct (k : nat) (ds : list descriptor) :
  NoDup (map worker_name (local_workers k ++ remote_workers 0 ds)).
Proof.
  rewrite map_app, names_local_workers, names_remote_workers.
  apply NoDup_app.
  - apply Injective_map_NoDup; [exact local_name_inj | apply seq_NoDup].
  - apply Injective_map_NoDup; [exact remote_name_inj | apply seq_NoDup].
  - intros name Hl Hr. apply in_map_iff in Hl. apply in_map_iff in Hr.
    destruct Hl as (i & <- & _). destruct Hr as (j & Hj & _).
    unfold local_name, remote_name in Hj. discriminate.
Qed.

(** X8: whatever the environment does, the workers registered with the
    scheduler by [assemble] carry pairwise different names: no two of
    [wrk0, wrk1, ...] and [net0, net1, ...] coincide. *)
Theorem worker_names_distinct {E : Env} (nprocs : Z) (hosts : list string) :
  NoDup (map worker_name (workers (snd (assemble nprocs hosts initial_world)))).
Proof.
  unfold assemble, bind, scheduler_start.
  destruct (register_all nprocs hosts initial_world) as [r w] eqn:Hrun.
  destruct (register_all_spec nprocs hosts r w Hrun)
    as (k & attempts & ds & evs & _ & Hw & _).
  destruct r as [e|[]]; cbn [snd workers]; rewrite Hw; apply pool_names_distinct.
Qed.

(** ** Host specifications written out *)

Lemma contains_app (c : ascii) (a b : string) :
  Str.contains c (a ++ b) = Str.contains c a || Str.contains c b.
Proof.
  induction a as [|d a IH]; simpl; [reflexivity|].
  destruct (Ascii.eqb d c); [reflexivity | exact IH].
Qed.

Lemma delimiter_free_contains (c : ascii) (s : string) :
  delimiter_free (String c "") s = true -> Str.contains c s = false.
Proof.
  unfold delimiter_free. induction s as [|d s IH]; [reflexivity|].
  cbn [every Str.contains]. intros H. apply andb_true_iff in H. destruct H as [Hd Hs].
  rewrite (Ascii.eqb_sym d c). destruct (Ascii.eqb c d); [discriminate | now apply IH].
Qed.

Lemma delimiter_free_weaken (s : string) :
  delimiter_free "@:" s = true ->
  delimiter_free "@" s = true /\ delimiter_free ":" s = true.
Proof.
  unfold delimiter_free. intros H. split; revert H; apply every_impl; intros c;
    cbn [Str.contains]; destruct (Ascii.eqb "@" c), (Ascii.eqb ":" c);
    simpl; congruence.
Qed.

Lemma digit_no_delimiter (c : ascii) :
  Str.isdigit c = true -> negb (Str.contains c "@:") = true.
Proof.
  destruct c as [[] [] [] [] [] [] [] []]; intros H; try discriminate H; reflexivity.
Qed.

Lemma digits_delimiter_free (s : string) :
  every Str.isdigit s = true -> delimiter_free "@:" s = true.
Proof. unfold delimiter_free. apply every_impl. exact digit_no_delimiter. Qed.

(** *** Printing and reading a decimal number *)

Lemma digits_step (c : ascii) (s : string) (acc : Z) :
  Str.isdigit c = true ->
  Str.digits (String c s) acc = Str.digits s (10 * acc + Str.digit_value c)%Z.
Proof. intros H. cbn [Str.digits]. now rewrite H. Qed.

Ltac digit_case IH :=
  cbn [NilEmpty.string_of_uint]; rewrite digits_step by reflexivity;
  match goal with
  | |- context [Str.digit_value ?c] =>
      let v := eval vm_compute in (Str.digit_value c) in
      change (Str.digit_value c) with v
  end;
  cbn [Pos.of_uint_acc Pos.of_uint]; rewrite <- IH; f_equal; lia.

Lemma digits_uint_acc (d : Decimal.uint) (acc : positive) :
  Str.digits (NilEmpty.string_of_uint d) (Zpos acc)
  = (Zpos (Pos.of_uint_acc d acc), "").
Proof.
  revert acc. induction d as [|d IH|d IH|d IH|d IH|d IH|d IH|d IH|d IH|d IH|d IH];
    intros acc; [reflexivity | digit_case IH ..].
Qed.

Lemma digits_uint (d : Decimal.uint) :
  Str.digits (NilEmpty.string_of_uint d) 0 = (Z.of_uint d, "").
Proof.
  unfold Z.of_uint.
  induction d as [|d IH|d IH|d IH|d IH|d IH|d IH|d IH|d IH|d IH|d IH];
    [reflexivity | cbn [NilEmpty.string_of_uint]; rewrite digits_step by reflexivity;
                   exact IH
     | cbn [NilEmpty.string_of_uint]; rewrite digits_step by reflexivity;
       apply digits_uint_acc ..].
Qed.

Lemma uint_all_digits (d : Decimal.uint) :
  every Str.isdigit (NilEmpty.string_of_uint d) = true.
Proof. induction d; simpl; auto. Qed.

(** [formatString("%i", z)] of a number that is not negative: a text of
    decimal digits, not empty, that reads back as [z]. *)
Lemma format_int_digits (z : Z) :
  (0 <= z)%Z ->
  every Str.isdigit (Str.format_int z) = true
  /\ Str.is_empty (Str.format_int z) = false
  /\ Str.digits (Str.format_int z) 0 = (z, "").
Proof.
  intros Hz. unfold Str.format_int.
  pose proof (DecimalZ.of_to z) as Hback.
  destruct z as [|p|p]; [repeat split | | lia].
  cbn [Z.to_int NilEmpty.string_of_int] in *. cbn [Z.of_int] in Hback.
  split; [apply uint_all_digits|]. split.
  - destruct (Pos.to_uint p); [discriminate Hback | reflexivity ..].
  - now rewrite digits_uint, Hback.
Qed.

(** What [strtol] makes of a text of decimal digits. *)
Lemma strtol_digits_value (s : string) :
  Str.is_empty s = false ->
  every Str.isdigit s = true ->
  Str.strtol s = (Str.clamp_long (fst (Str.digits s 0)), "").
Proof.
  destruct s as [|c r]; [discriminate|]. intros _ H.
  pose proof (digits_all (String c r) 0 H) as Hend.
  cbn [every] in H. apply andb_true_iff in H. destruct H as [Hc Hr].
  destruct c as [[] [] [] [] [] [] [] []]; try discriminate Hc;
    match goal with
    | |- Str.strtol ?t = _ =>
        change (Str.strtol t)
          with (let (v, rest) := Str.digits t 0 in (Str.clamp_long v, rest));
        destruct (Str.digits t 0) as [v rest]
    end; cbn [fst snd] in *; now subst rest.
Qed.

Lemma strtol_format_int (z : Z) :
  (0 <= z <= Str.LONG_MAX)%Z -> Str.strtol (Str.format_int z) = (z, "").
Proof.
  intros Hz. destruct (format_int_digits z) as (Hall & Hne & Hval); [lia|].
  rewrite (strtol_digits_value _ Hne Hall), Hval. cbn [fst].
  unfold Str.clamp_long, Str.LONG_MIN, Str.LONG_MAX in *. f_equal. lia.
Qed.

Section RoundTrip.

Context {E : Env}.

(** X9: a host name with no [:] and no [@] in it, written alone, is a
    direct connection to that host on the default port; followed by [:]
    and a port printed in decimal, it is a direct connection on that
    port for every port from 0 below [2^31] (the code checks no other
    bound), and a larger port up to [LONG_MAX] is not rejected but
    narrowed to [int]. *)
Theorem direct_round_trip (host : string) (port : Z) :
  proper_token ":" host ->
  Str.contains "@" host = false ->
  parse_host host = inr (Direct host MTS_DEFAULT_PORT)
  /\ ((0 <= port < 2 ^ 31)%Z ->
      parse_host (host ++ ":" ++ Str.format_int port) = inr (Direct host port))
  /\ ((0 <= port <= Str.LONG_MAX)%Z ->
      parse_host (host ++ ":" ++ Str.format_int port)
      = inr (Direct host (Str.int_of_long port))).
Proof.
  intros [Hne Hfree] Hat.
  assert (Hwide : (0 <= port <= Str.LONG_MAX)%Z ->
                  parse_host (host ++ ":" ++ Str.format_int port)
                  = inr (Direct host (Str.int_of_long port))).
  { intros Hport.
    destruct (format_int_digits port) as (Hall & Hpne & _); [lia|].
    destruct (delimiter_free_weaken _ (digits_delimiter_free _ Hall)) as [Hpat Hpcolon].
    rewrite parse_host_direct_branch.
    - change (host ++ ":" ++ Str.format_int port)%string
        with (host ++ String ":" (Str.format_int port))%string.
      rewrite tokenize_app_delim by reflexivity.
      rewrite !tokenize_delimiter_free by assumption. rewrite Hne, Hpne.
      cbn [app]. rewrite (c_str_digits _ Hall), strtol_format_int by assumption.
      reflexivity.
    - rewrite contains_app, Hat. cbn [orb Str.contains append].
      now apply delimiter_free_contains. }
  split; [|split].
  - rewrite (parse_host_direct_branch host Hat).
    now rewrite tokenize_delimiter_free, Hne by assumption.
  - intros Hport. rewrite Hwide by (unfold Str.LONG_MAX; lia).
    unfold Str.int_of_long. repeat f_equal.
    rewrite Z.mod_small by lia. lia.
  - exact Hwide.
Qed.

(** X10: for a user, a host and a path that are not empty and hold no
    [@] and no [:], [user@host] is a tunnel with the default path
    ~/mitsuba and [user@host:path] a tunnel with that path; one more
    [:]-separated piece behind the path makes the specification
    invalid, so a remote path cannot contain a colon. *)
Theorem tunnel_round_trip (user host path : string) :
  proper_token "@:" user ->
  proper_token "@:" host ->
  proper_token "@:" path ->
  parse_host (user ++ "@" ++ host) = inr (Tunnel user host "~/mitsuba")
  /\ parse_host (user ++ "@" ++ host ++ ":" ++ path) = inr (Tunnel user host path)
  /\ forall more,
      proper_token "@:" more ->
      parse_host (user ++ "@" ++ host ++ ":" ++ path ++ ":" ++ more)
      = inl (LogError invalid_host_fmt
               [Str.c_str (user ++ "@" ++ host ++ ":" ++ path ++ ":" ++ more)]).
Proof.
  intros [Hu Hufree] [Hh Hhfree] [Hp Hpfree].
  assert (Hat : forall rest, Str.contains "@" (user ++ "@" ++ rest) = true).
  { intros rest. rewrite contains_app. cbn [append Str.contains].
    rewrite Ascii.eqb_refl. apply orb_true_r. }
  split; [|split].
  - rewrite parse_host_tunnel_branch by apply Hat.
    change (user ++ "@" ++ host)%string with (user ++ String "@" host)%string.
    rewrite tokenize_app_delim by reflexivity.
    rewrite !tokenize_delimiter_free by assumption. now rewrite Hu, Hh.
  - rewrite parse_host_tunnel_branch by apply Hat.
    change (user ++ "@" ++ host ++ ":" ++ path)%string
      with (user ++ String "@" (host ++ String ":" path))%string.
    rewrite !tokenize_app_delim by reflexivity.
    rewrite !tokenize_delimiter_free by assumption. now rewrite Hu, Hh, Hp.
  - intros more [Hm Hmfree].
    rewrite parse_host_tunnel_branch by apply Hat.
    change (user ++ "@" ++ host ++ ":" ++ path ++ ":" ++ more)%string
      with (user ++ String "@" (host ++ String ":" (path ++ String ":" more)))%string.
    rewrite !tokenize_app_delim by reflexivity.
    rewrite !tokenize_delimiter_free by assumption. now rewrite Hu, Hh, Hp, Hm.
Qed.

End RoundTrip.

Lemma direct_round_trip_witness :
  @parse_host Examples.calm "node7" = inr (Direct "node7" 7554)
  /\ @parse_host Examples.calm ("node7" ++ ":" ++ Str.format_int 70000)
     = inr (Direct "node7" 70000).
Proof.
  destruct (@direct_round_trip Examples.calm "node7" 70000) as (H1 & H2 & _).
  - split; reflexivity.
  - reflexivity.
  - split; [exact H1 | apply H2; lia].
Defined.

Lemma tunnel_round_trip_witness :
  @parse_host Examples.calm ("wenzel" ++ "@" ++ "node7" ++ ":" ++ "/opt/mts")
  = inr (Tunnel "wenzel" "node7" "/opt/mts").
Proof.
  refine (proj1 (proj2 (@tunnel_round_trip Examples.calm "wenzel" "node7" "/opt/mts"
                          _ _ _))); split; reflexivity.
Defined.

(** ** Entries of a host file *)

Lemma words_tokens (content : string) :
  Forall (proper_token Str.whitespace) (Str.words content).
Proof. exact (tokenize_tokens Str.whitespace content). Qed.

(** X11: whatever a host file contains, each entry the [-s] option adds
    to the hosts string is a word of the file: it is not empty, holds
    no white space and does not begin with [#]; and the loop only ever
    appends to the hosts gathered before. *)
Theorem file_entries_are_words (content : string) (acc : string) :
  Forall (fun host => proper_token Str.whitespace host
                      /\ starts_with_hash host = false)
         (file_entries content)
  /\ read_hosts (Str.words content) acc
     = fold_left Str.add_host (file_entries content) acc
  /\ exists more, read_hosts (Str.words content) acc = (acc ++ more)%string.
Proof.
  split; [|split].
  - unfold file_entries. apply Forall_forall. intros host Hin.
    apply filter_In in Hin. destruct Hin as [Hin Hkeep].
    pose proof (words_tokens content) as Hall. rewrite Forall_forall in Hall.
    split; [now apply Hall|].
    apply negb_true_iff in Hkeep. unfold skipped_entry in Hkeep.
    apply orb_false_iff in Hkeep. destruct Hkeep as [_ Hhash].
    destruct host; [reflexivity | exact Hhash].
  - apply read_hosts_fold.
  - rewrite read_hosts_fold. fold (file_entries content).
    generalize (file_entries content). intros entries.
    revert acc. induction entries as [|e es IH]; intros acc; cbn [fold_left].
    + exists "". clear. induction acc as [|c acc IH]; simpl; [reflexivity|].
      now rewrite <- IH.
    + destruct (IH (Str.add_host acc e)) as [more ->].
      exists (String ";" e ++ more)%string. rewrite add_host_eq.
      clear. induction acc as [|c acc IH]; simpl; [reflexivity|].
      now rewrite IH.
Qed.

(** ** More on the pool *)

Section PoolRuns.

Context {E : Env}.

Lemma register_all_running (nprocs : Z) (hosts : list string) r w :
  register_all nprocs hosts initial_world = (r, w) -> running w = false.
Proof.
  unfold register_all, bind.
  destruct (register_locals (Z.to_nat nprocs) 0 initial_world) as [r1 w1] eqn:Hloc.
  apply register_locals_spec in Hloc. destruct Hloc as (Hr1 & _).
  destruct r1 as [e|[]].
  - now intros [= <- <-].
  - intros Hrem. apply connect_hosts_spec in Hrem. destruct Hrem as (Hr2 & _).
    now rewrite Hr2.
Qed.

Lemma no_start_before (nprocs : Z) (hosts : list string) r w :
  register_all nprocs hosts initial_world = (r, w) -> ~ In EvStart (trace w).
Proof.
  intros Hrun.
  destruct (register_all_spec nprocs hosts r w Hrun)
    as (k & attempts & ds & evs & _ & _ & _ & _ & Ht & Hev & _).
  rewrite Ht, in_app_iff. intros [H|H].
  - unfold local_workers in H. exact (no_start_locals _ H).
  - rewrite Forall_forall in Hev. exact (Hev _ H).
Qed.

(** X12: the host specifications are checked one at a time, as the
    connection loop reaches them.  When the hosts before an invalid one
    were connected and registered, [assemble] ends with the error of the
    invalid specification in exactly the state those hosts left: their
    workers stay registered, no stream is attempted for the invalid host
    or any host behind it, and the scheduler is not started. *)
Theorem invalid_host_found_late (nprocs : Z) (pre : list string) (hostName : string)
        (post : list string) (s : world) (e : exn) :
  register_all nprocs pre initial_world = (inr tt, s) ->
  parse_host hostName = inl e ->
  assemble nprocs (pre ++ hostName :: post) initial_world = (inl e, s)
  /\ running s = false
  /\ exists ds,
      map parse_host pre = map inr ds
      /\ workers s = local_workers (Z.to_nat nprocs) ++ remote_workers 0 ds
      /\ opened (trace s) = map stream_of ds.
Proof.
  intros Hpre Hparse.
  destruct (register_all_done nprocs pre s Hpre)
    as (w1 & ds & Hloc & Hrem & Hds & Hw & Ht & Hr).
  assert (Hstep : connect_host (0 + List.length pre) hostName s = (inl e, s)).
  { unfold connect_host, bind, throw. now rewrite Hparse. }
  split; [|split; [exact Hr|]].
  - unfold assemble, register_all, bind. rewrite Hloc.
    now rewrite (connect_hosts_abort pre hostName post 0 w1 s e s Hrem Hstep).
  - exists ds. split; [exact Hds|]. split; [exact Hw|].
    rewrite Ht. unfold local_workers.
    now rewrite opened_app, opened_locals, opened_remote_events.
Qed.

Lemma connect_hosts_count (hosts : list string) (i : nat) (w : world) r w' :
  connect_hosts i hosts w = (r, w') ->
  match r with
  | inr _ => List.length (workers w') = List.length (workers w) + List.length hosts
  | inl _ => List.length (workers w') < List.length (workers w) + List.length hosts
  end.
Proof.
  revert i w. induction hosts as [|hostName rest IH]; intros i w.
  - simpl. intros [= <- <-]. simpl. lia.
  - cbn [connect_hosts]. unfold bind at 1.
    pose proof (connect_host_spec i hostName w) as Hstep.
    destruct (connect_host i hostName w) as [[e|[]] w1]; cbn [fst snd] in Hstep.
    + intros [= <- <-]. inversion Hstep; subst; simpl; lia.
    + intros Hrest. apply IH in Hrest.
      inversion Hstep as [| | |d Hd Hopen Hreg Hw1]; subst w1.
      cbn [workers] in Hrest. rewrite length_app in Hrest. simpl in *.
      destruct r; lia.
Qed.

Lemma register_all_count (nprocs : Z) (hosts : list string) r w :
  register_all nprocs hosts initial_world = (r, w) ->
  match r with
  | inr _ => List.length (workers w) = Z.to_nat nprocs + List.length hosts
  | inl _ => List.length (workers w) < Z.to_nat nprocs + List.length hosts
             \/ (List.length (workers w) < Z.to_nat nprocs)
  end.
Proof.
  unfold register_all, bind.
  destruct (register_locals (Z.to_nat nprocs) 0 initial_world) as [r1 w1] eqn:Hloc.
  apply register_locals_spec in Hloc. destruct Hloc as (_ & k & Hw1 & Hcase).
  cbn [workers initial_world app] in Hw1.
  assert (Hlen : List.length (workers w1) = k)
    by (now rewrite Hw1, length_map, length_seq).
  destruct r1 as [e|[]]; destruct Hcase as [Hk _].
  - intros [= <- <-]. right. lia.
  - intros Hrem. apply connect_hosts_count in Hrem. destruct r; [left|]; lia.
Qed.

(** X13: on a fresh scheduler, the scheduler is started exactly when
    every registration of the pool succeeded, that is, when the
    [nprocs] local workers and one remote worker per host are all
    registered; this is also exactly when [assemble] returns.  A
    failure of any kind (a local or remote registration, a stream, an
    invalid host specification) leaves the scheduler stopped, and a
    start is the last event of the run. *)
Theorem scheduler_started_iff_complete (nprocs : Z) (hosts : list string) :
  (running (snd (assemble nprocs hosts initial_world)) = true
   <-> List.length (workers (snd (assemble nprocs hosts initial_world)))
       = Z.to_nat nprocs + List.length hosts)
  /\ (running (snd (assemble nprocs hosts initial_world)) = true
      <-> fst (register_all nprocs hosts initial_world) = inr tt)
  /\ (running (snd (assemble nprocs hosts initial_world)) = true
      <-> fst (assemble nprocs hosts initial_world) = inr tt)
  /\ (In EvStart (trace (snd (assemble nprocs hosts initial_world)))
      <-> running (snd (assemble nprocs hosts initial_world)) = true)
  /\ (running (snd (assemble nprocs hosts initial_world)) = true ->
      exists t,
        trace (snd (assemble nprocs hosts initial_world)) = t ++ [EvStart]
        /\ ~ In EvStart t).
Proof.
  unfold assemble, bind, scheduler_start.
  destruct (register_all nprocs hosts initial_world) as [r w] eqn:Hrun.
  pose proof (register_all_running _ _ _ _ Hrun) as Hstopped.
  pose proof (no_start_before _ _ _ _ Hrun) as Hnone.
  pose proof (register_all_count _ _ _ _ Hrun) as Hcount.
  destruct r as [e|[]]; cbn [fst snd running trace workers].
  - rewrite Hstopped. repeat split; try discriminate; try lia.
    intros H; now elim Hnone.
  - repeat split; auto.
    + intros _. apply in_app_iff. right. now left.
    + intros _. exists (trace w). auto.
Qed.

End PoolRuns.

Lemma invalid_host_found_late_witness :
  @assemble Examples.calm 1 (["h1"] ++ "a:b:c" :: ["h3"]) initial_world
  = (inl (LogError invalid_host_fmt ["a:b:c"]),
     mkWorld [LocalWorker "wrk0"; RemoteWorker "net0" (SocketStream "h1" 7554)] false
       [EvRegister (LocalWorker "wrk0"); EvNewStream (SocketStream "h1" 7554);
        EvRegister (RemoteWorker "net0" (SocketStream "h1" 7554))]).
Proof.
  exact (proj1 (@invalid_host_found_late Examples.calm 1 ["h1"] "a:b:c" ["h3"]
                  _ _ eq_refl eq_refl)).
Defined.

Lemma option_loop_stops_at_first_witness :
  @getopt_loop Examples.calm
    ([("c"%char, "a")] ++ ("s"%char, "missing.txt") :: [("x"%char, "")])
    (@default_settings Examples.calm) initial_world
  = (inl (LogError "Could not open host file!" []), initial_world).
Proof.
  exact (proj1 (@option_loop_stops_at_first Examples.calm [("c"%char, "a")]
                  ("s"%char, "missing.txt") [("x"%char, "")]
                  (@default_settings Examples.calm) initial_world eq_refl eq_refl)).
Defined.

Lemma settings_of_options_witness :
  nprocs (mkSettings 8 "render" "" true false) = 8%Z
  /\ nodeName (mkSettings 8 "render" "" true false) = "render"
  /\ quietMode (mkSettings 8 "render" "" true false) = true
  /\ verbose (mkSettings 8 "render" "" true false) = false.
Proof.
  exact (@settings_of_options Examples.calm
           [("p"%char, "4"); ("n"%char, "render"); ("q"%char, ""); ("p"%char, "8")]
           (mkSettings 8 "render" "" true false) initial_world eq_refl).
Defined.

Lemma options_before_pool_witness :
  exists ev,
    @ubi_main Examples.calm 5 [("c"%char, "a"); ("p"%char, "4x")] 5
    = (0%Z, mkWorld [] false [ev])
    /\ (ev = EvHelp \/ exists e, ev = EvCaught e).
Proof.
  exact (@options_before_pool Examples.calm 5 [("c"%char, "a"); ("p"%char, "4x")] 5
           eq_refl).
Defined.

Lemma ubi_main_exit_status_witness :
  fst (@ubi_main Examples.calm 3 [("p"%char, "1")] 3) = (-1)%Z.
Proof.
  apply (proj1 (@ubi_main_exit_status Examples.calm 3 [("p"%char, "1")] 3)).
  split; [lia|]. split; [lia|].
  exists (mkSettings 1 "node" "" false false). split; reflexivity.
Defined.

Lemma calm_never_throws : never_throws Examples.calm.
Proof. repeat split. Qed.

Lemma ubi_main_success_witness :
  @ubi_main Examples.calm 5 [("p"%char, "1"); ("c"%char, "h1;u@h2")] 4
  = (0%Z,
     mkWorld
       (local_workers 1
          ++ remote_workers 0 [Direct "h1" 7554; Tunnel "u" "h2" "~/mitsuba"])
       true
       (map EvRegister (local_workers 1)
          ++ remote_events 0 [Direct "h1" 7554; Tunnel "u" "h2" "~/mitsuba"]
          ++ [EvStart; EvCreateUtility])).
Proof.
  exact (@ubi_main_success Examples.calm 5 [("p"%char, "1"); ("c"%char, "h1;u@h2")] 4
           (mkSettings 1 "node" ";h1;u@h2" false false) initial_world
           [Direct "h1" 7554; Tunnel "u" "h2" "~/mitsuba"]
           calm_never_throws ltac:(lia) eq_refl eq_refl).
Defined.

Lemma scheduler_started_iff_complete_witness :
  running (snd (@assemble Examples.calm 2 ["h1"; "u@h2"] initial_world)) = true
  /\ running (snd (@assemble Examples.second_down 2 ["h1"; "h2"] initial_world)) = false.
Proof.
  split.
  - apply (proj1 (@scheduler_started_iff_complete Examples.calm 2 ["h1"; "u@h2"])).
    reflexivity.
  - apply not_true_is_false. intros Hrun.
    apply (proj1 (@scheduler_started_iff_complete Examples.second_down 2 ["h1"; "h2"]))
      in Hrun.
    vm_compute in Hrun. discriminate Hrun.
Defined.
